(** * feedlist: the Feed List Store of feed-reader

    A shallow embedding of [feedlist/feed_list.go].  The store keeps the
    user-added feeds as one JSON value under the key ["all"] of the bolt
    bucket ["feedlist"], and merges them with a hard-coded default list.

    - Go strings are byte sequences: [string].  [[]byte] is [list byte];
      a nil slice is [None] where the code can tell it from an empty one.
    - A Go result [(T, error)] is [result T].
    - bolt is modelled by what the store uses of it: named buckets, a
      read-only and a read-write transaction, [Get] and [Put].
    - [encoding/json] is an interface ([JSON]); the laws the proofs need
      are stated where they are used.
    - [uuid.NewString()] is the identifier drawn at the call, an argument
      of [Add]. *)

From Stdlib.Strings Require Import String Ascii Byte.
From Stdlib Require Import List Bool Arith ZArith Lia.
From stdpp Require Import gmap strings list fin_maps.
Import ListNotations.

Local Open Scope string_scope.
Local Open Scope list_scope.

(** ** Errors and results *)

Inductive error : Type :=
| ErrorInitializingDB
| ErrorUnconfiguredBucket
| ErrorStoreFeedListCorrupted
| ErrorFeedNotFound
| LibraryError (msg : string).

Inductive result (A : Type) : Type :=
| Ok (a : A)
| Err (e : error).

Arguments Ok {A} a.
Arguments Err {A} e.

Definition failed {A : Type} (r : result A) : bool :=
  match r with Ok _ => false | Err _ => true end.

(** ** The Feed record *)

Record Feed : Type := mkFeed {
  ID : string;
  Title : string;
  Description : string;
  URL : string;
  ImageURL : string;
  Category : string
}.

(** [feed.ID = id] on the local copy of a [Feed]. *)
Definition set_ID (feed : Feed) (id : string) : Feed :=
  {| ID := id;
     Title := Title feed;
     Description := Description feed;
     URL := URL feed;
     ImageURL := ImageURL feed;
     Category := Category feed |}.

(** A [[]byte] that may be nil: its [len], and its bytes. *)
Definition len (b : option (list byte)) : nat :=
  match b with
  | None => 0
  | Some data => length data
  end.

Definition bytes (b : option (list byte)) : list byte :=
  match b with
  | None => []
  | Some data => data
  end.

Definition feedListBucket : string := "feedlist".
Definition allFeedsBucketKey : string := "all".

Definition defaultFeedsList : list Feed :=
  [ {| ID := "b1031651-411c-40bb-b269-d247794dfd59";
       Title := "BBC News - UK";
       Description := "BBC News - UK";
       URL := "http://feeds.bbci.co.uk/news/uk/rss.xml";
       ImageURL := "https://news.bbcimg.co.uk/nol/shared/img/bbc_news_120x60.gif";
       Category := "" |};
    {| ID := "c2970c84-37c8-4ec1-8861-4b5a91ebff0d";
       Title := "BBC News - Technology";
       Description := "BBC News - Technology";
       URL := "http://feeds.bbci.co.uk/news/technology/rss.xml";
       ImageURL := "https://news.bbcimg.co.uk/nol/shared/img/bbc_news_120x60.gif";
       Category := "" |};
    {| ID := "28059396-5113-46ed-b76b-6d482a3bbcf3";
       Title := "UK News - The latest headlines from the UK | Sky News";
       Description := "Expert comment and analysis on the latest UK news, with headlines from England, Scotland, Northern Ireland and Wales.";
       URL := "http://feeds.skynews.com/feeds/rss/uk.xml";
       ImageURL := "http://feeds.skynews.com/images/web/logo/skynews_rss.png";
       Category := "Sky News" |};
    {| ID := "a2370e4f-0e7f-4844-83cb-b54c02b0bf1f";
       Title := "Tech News - Latest Technology and Gadget News | Sky News";
       Description := "Sky News technology provides you with all the latest tech and gadget news, game reviews, Internet and web news across the globe. Visit us today.";
       URL := "http://feeds.skynews.com/feeds/rss/technology.xml";
       ImageURL := "http://feeds.skynews.com/images/web/logo/skynews_rss.png";
       Category := "Sky News" |} ].

(** ** bolt, as far as the store uses it *)

Module bolt.

(** A bucket maps keys to values; a database maps names to buckets.
    Nested buckets are not used by the store and are left out. *)
Abbreviation Bucket := (gmap string (list byte)).
Abbreviation DB := (gmap string (gmap string (list byte))).

(** A transaction works on a private copy of the database. *)
Abbreviation Tx := (gmap string (gmap string (list byte))).

Definition MaxKeySize : Z := 32768.
Definition MaxValueSize : Z := 2147483646.

Definition ErrBucketNameRequired : error := LibraryError "bucket name required".
Definition ErrKeyRequired : error := LibraryError "key required".
Definition ErrKeyTooLarge : error := LibraryError "key too large".
Definition ErrValueTooLarge : error := LibraryError "value too large".

(** [tx.Bucket(name)]: nil when there is no such bucket. *)
Definition Tx_Bucket (tx : Tx) (name : string) : option Bucket :=
  tx !! name.

(** [bucket.Get(key)]: nil when the key is absent. *)
Definition Bucket_Get (bucket : Bucket) (key : string) : option (list byte) :=
  bucket !! key.

(** [bucket.Put(key, value)] on the bucket called [name] of [tx]. *)
Definition Bucket_Put (tx : Tx) (name : string) (bucket : Bucket)
    (key : string) (value : list byte) : result Tx :=
  if (String.length key =? 0)%nat then Err ErrKeyRequired
  else if (MaxKeySize <? Z.of_nat (String.length key))%Z then Err ErrKeyTooLarge
  else if (MaxValueSize <? Z.of_nat (length value))%Z then Err ErrValueTooLarge
  else Ok (<[name := <[key := value]> bucket]> tx).

(** [tx.CreateBucketIfNotExists(name)]. *)
Definition Tx_CreateBucketIfNotExists (tx : Tx) (name : string) : result Tx :=
  if (String.length name =? 0)%nat then Err ErrBucketNameRequired
  else match tx !! name with
       | Some _ => Ok tx
       | None => Ok (<[name := ∅]> tx)
       end.

(** [db.View(fn)] on an open database: [fn] reads a snapshot; nothing
    is written. *)
Definition View {A : Type} (db : DB) (fn : Tx -> result A) : result A :=
  fn db.

(** [db.Update(fn)]: when [fn] fails the transaction is rolled back;
    otherwise it is committed, and the commit itself fails with
    [commit = Some err] (a disk fault), which rolls back as well. *)
Definition Update (commit : option error) (db : DB) (fn : Tx -> result Tx)
    : DB * option error :=
  match fn db with
  | Err err => (db, Some err)
  | Ok tx =>
      match commit with
      | Some err => (db, Some err)
      | None => (tx, None)
      end
  end.

End bolt.

(** ** encoding/json, for the one type the store serialises *)

Class JSON : Type := {
  json_Marshal : list Feed -> result (list byte);
  json_Unmarshal : list byte -> result (list Feed)
}.

(** ** The store *)

Section Store.

Context {J : JSON}.

Definition init (commit : option error) (db : bolt.DB) : bolt.DB * option error :=
  bolt.Update commit db (fun tx =>
    match bolt.Tx_CreateBucketIfNotExists tx feedListBucket with
    | Err _ => Err ErrorInitializingDB
    | Ok tx' => Ok tx'
    end).

Definition NewFeedListStore (commit : option error) (db : bolt.DB)
    : bolt.DB * option error :=
  init commit db.

Definition listStored (db : bolt.DB) : result (list Feed) :=
  match bolt.View db (fun tx =>
          match bolt.Tx_Bucket tx feedListBucket with
          | None => Err ErrorUnconfiguredBucket
          | Some bucket => Ok (bolt.Bucket_Get bucket allFeedsBucketKey)
          end) with
  | Err err => Err err
  | Ok rawFeedList =>
      if (len rawFeedList =? 0)%nat then Ok []
      else
        match json_Unmarshal (bytes rawFeedList) with
        | Err _ => Err ErrorStoreFeedListCorrupted
        | Ok feedList => Ok feedList
        end
  end.

(** A nil and an empty [storedFeedList] are both [[]]: the first branch
    returns [defaultFeedsList], and so does [append] with nothing to add. *)
Definition ListAll (db : bolt.DB) : result (list Feed) :=
  match listStored db with
  | Err err => Err err
  | Ok storedFeedList =>
      match storedFeedList with
      | [] => Ok defaultFeedsList
      | _ :: _ => Ok (defaultFeedsList ++ storedFeedList)
      end
  end.

Definition Add (newID : string) (commit : option error) (db : bolt.DB)
    (feed : Feed) : bolt.DB * result string :=
  let feed := set_ID feed newID in
  match listStored db with
  | Err err => (db, Err err)
  | Ok existingFeeds =>
      match find (fun existingFeed => String.eqb (URL existingFeed) (URL feed))
                 existingFeeds with
      | Some existingFeed => (db, Ok (ID existingFeed))
      | None =>
          match find (fun existingFeed => String.eqb (URL existingFeed) (URL feed))
                     defaultFeedsList with
          | Some existingFeed => (db, Ok (ID existingFeed))
          | None =>
              match json_Marshal (existingFeeds ++ [feed]) with
              | Err err => (db, Err err)
              | Ok rawFeed =>
                  match bolt.Update commit db (fun tx =>
                          match bolt.Tx_Bucket tx feedListBucket with
                          | None => Err ErrorUnconfiguredBucket
                          | Some bucket =>
                              bolt.Bucket_Put tx feedListBucket bucket
                                allFeedsBucketKey rawFeed
                          end) with
                  | (db', Some err) => (db', Err err)
                  | (db', None) => (db', Ok (ID feed))
                  end
              end
          end
      end
  end.

Definition GetByID (db : bolt.DB) (id : string) : result Feed :=
  match ListAll db with
  | Err err => Err err
  | Ok feeds =>
      match find (fun feed => String.eqb (ID feed) id) feeds with
      | Some feed => Ok feed
      | None => Err ErrorFeedNotFound
      end
  end.

End Store.

(** ** A reference instance of [JSON]

    Documents as [json.Marshal] lays them out for a [[]Feed], and a reader
    of exactly those documents (and of [null]): an array of objects with
    the six fields in declaration order, no white space.  In a string the
    quote and the backslash are escaped with a backslash, line feed,
    carriage return and tab as [\n], [\r], [\t], and the other control
    characters and [<], [>], [&] as [\u00XX]; every other byte stands for
    itself (the instance does not look at the encoding of the bytes above
    127).  The store's theorems hold for every instance that meets the
    laws they assume; this one shows the laws can be met, and is the
    instance the examples run on. *)

Module canonical.

Definition quote : ascii := "034"%char.
Definition backslash : ascii := "092"%char.

Definition hex_digit (n : nat) : ascii :=
  nth n (list_ascii_of_string "0123456789abcdef") "0"%char.

Definition hex_value (c : ascii) : option nat :=
  let n := nat_of_ascii c in
  if ((48 <=? n) && (n <=? 57))%nat then Some (n - 48)%nat
  else if ((97 <=? n) && (n <=? 102))%nat then Some (n - 87)%nat
  else if ((65 <=? n) && (n <=? 70))%nat then Some (n - 55)%nat
  else None.

Definition needs_hex (c : ascii) : bool :=
  ((nat_of_ascii c <? 32)%nat
   || Ascii.eqb c "<" || Ascii.eqb c ">" || Ascii.eqb c "&")%bool.

(** The escaped form of [c], written in front of [rest]. *)
Definition escape_char (c : ascii) (rest : string) : string :=
  if Ascii.eqb c quote then String backslash (String quote rest)
  else if Ascii.eqb c backslash then String backslash (String backslash rest)
  else if Ascii.eqb c "010" then String backslash (String "n" rest)
  else if Ascii.eqb c "013" then String backslash (String "r" rest)
  else if Ascii.eqb c "009" then String backslash (String "t" rest)
  else if needs_hex c then
    String backslash (String "u" (String "0" (String "0"
      (String (hex_digit (nat_of_ascii c / 16))
         (String (hex_digit (nat_of_ascii c mod 16)) rest)))))
  else String c rest.

Fixpoint escape (s : string) (rest : string) : string :=
  match s with
  | EmptyString => rest
  | String c s' => escape_char c (escape s' rest)
  end.

Definition write_string (s : string) (rest : string) : string :=
  String quote (escape s (String quote rest)).

Definition write_field (name value : string) (rest : string) : string :=
  String quote (name +:+ String quote (String ":" (write_string value rest))).

Definition write_feed (f : Feed) (rest : string) : string :=
  String "{"
    (write_field "ID" (ID f) (String ","
    (write_field "Title" (Title f) (String ","
    (write_field "Description" (Description f) (String ","
    (write_field "URL" (URL f) (String ","
    (write_field "ImageURL" (ImageURL f) (String ","
    (write_field "Category" (Category f) (String "}" rest)))))))))))).

(** What follows an element of the array: the other elements, each
    after a comma, and the closing bracket. *)
Fixpoint write_more (l : list Feed) : string :=
  match l with
  | [] => "]"
  | f :: l' => String "," (write_feed f (write_more l'))
  end.

Definition encode (l : list Feed) : string :=
  match l with
  | [] => "[]"
  | f :: l' => String "[" (write_feed f (write_more l'))
  end.

Definition with_head (c : ascii) (r : option (string * string))
    : option (string * string) :=
  match r with
  | Some (s, rest) => Some (String c s, rest)
  | None => None
  end.

(** Reads a string up to its closing quote; the opening quote has been
    read.  Returns the string and what follows the closing quote. *)
Fixpoint read_chars (s : string) : option (string * string) :=
  match s with
  | EmptyString => None
  | String c rest =>
      if Ascii.eqb c quote then Some (EmptyString, rest)
      else if Ascii.eqb c backslash then
        match rest with
        | EmptyString => None
        | String e rest1 =>
            if Ascii.eqb e quote || Ascii.eqb e backslash || Ascii.eqb e "/"
            then with_head e (read_chars rest1)
            else if Ascii.eqb e "n" then with_head "010" (read_chars rest1)
            else if Ascii.eqb e "r" then with_head "013" (read_chars rest1)
            else if Ascii.eqb e "t" then with_head "009" (read_chars rest1)
            else if Ascii.eqb e "u" then
              match rest1 with
              | String "0" (String "0" (String h (String l rest2))) =>
                  match hex_value h, hex_value l with
                  | Some hi, Some lo =>
                      with_head (ascii_of_nat (16 * hi + lo)) (read_chars rest2)
                  | _, _ => None
                  end
              | _ => None
              end
            else None
        end
      else if (nat_of_ascii c <? 32)%nat then None
      else with_head c (read_chars rest)
  end.

(** Strips the prefix [lit] from [s]. *)
Fixpoint expect (lit s : string) : option string :=
  match lit with
  | EmptyString => Some s
  | String c lit' =>
      match s with
      | EmptyString => None
      | String d s' => if Ascii.eqb c d then expect lit' s' else None
      end
  end.

Definition read_string (s : string) : option (string * string) :=
  match expect (String quote EmptyString) s with
  | Some s1 => read_chars s1
  | None => None
  end.

Definition read_field (name : string) (s : string) : option (string * string) :=
  match expect (String quote (name +:+ String quote ":")) s with
  | Some s1 => read_string s1
  | None => None
  end.

Definition read_feed (s : string) : option (Feed * string) :=
  match expect "{" s with None => None | Some s =>
  match read_field "ID" s with None => None | Some (id, s) =>
  match expect "," s with None => None | Some s =>
  match read_field "Title" s with None => None | Some (title, s) =>
  match expect "," s with None => None | Some s =>
  match read_field "Description" s with None => None | Some (description, s) =>
  match expect "," s with None => None | Some s =>
  match read_field "URL" s with None => None | Some (url, s) =>
  match expect "," s with None => None | Some s =>
  match read_field "ImageURL" s with None => None | Some (imageURL, s) =>
  match expect "," s with None => None | Some s =>
  match read_field "Category" s with None => None | Some (category, s) =>
  match expect "}" s with None => None | Some s =>
    Some (mkFeed id title description url imageURL category, s)
  end end end end end end end end end end end end end.

(** Reads what [write_more] writes; [fuel] bounds the number of
    elements, and the length of the input is enough. *)
Fixpoint read_more (fuel : nat) (s : string) : option (list Feed) :=
  match fuel with
  | O => None
  | S fuel' =>
      match s with
      | String "]" EmptyString => Some []
      | String "," s1 =>
          match read_feed s1 with
          | Some (f, s2) =>
              match read_more fuel' s2 with
              | Some l => Some (f :: l)
              | None => None
              end
          | None => None
          end
      | _ => None
      end
  end.

Definition decode (s : string) : option (list Feed) :=
  if String.eqb s "null" then Some []
  else if String.eqb s "[]" then Some []
  else
    match expect "[" s with
    | None => None
    | Some s1 =>
        match read_feed s1 with
        | Some (f, s2) =>
            match read_more (String.length s2) s2 with
            | Some l => Some (f :: l)
            | None => None
            end
        | None => None
        end
    end.

Definition Marshal (v : list Feed) : result (list byte) :=
  Ok (list_byte_of_string (encode v)).

Definition Unmarshal (data : list byte) : result (list Feed) :=
  match decode (string_of_list_byte data) with
  | Some v => Ok v
  | None => Err (LibraryError "invalid JSON")
  end.

End canonical.

Definition canonicalJSON : JSON :=
  {| json_Marshal := canonical.Marshal; json_Unmarshal := canonical.Unmarshal |}.

(** A database file that has just been created. *)
Definition newDB : bolt.DB := ∅.

Definition exampleFeed : Feed :=
  {| ID := "chosen-by-caller";
     Title := "Example";
     Description := "An <example> feed";
     URL := "http://example.com/rss";
     ImageURL := "";
     Category := "" |}.

(** The test of both loops of [Add]: the existing feed has the URL. *)
Definition hasURL (url : string) (existingFeed : Feed) : bool :=
  String.eqb (URL existingFeed) url.

(** ** Sequences of calls *)

(** One call of [Add]: the identifier [uuid.NewString()] draws, whether
    the commit of the write transaction meets a fault, and the candidate. *)
Record AddCall : Type := mkAddCall {
  call_uuid : string;
  call_commit : option error;
  call_feed : Feed
}.

(** The candidate of a call as [Add] would store it. *)
Definition stamped (c : AddCall) : Feed :=
  set_ID (call_feed c) (call_uuid c).

(** The calls run one after the other, whatever each returns. *)
Fixpoint AddEach {J : JSON} (calls : list AddCall) (db : bolt.DB) : bolt.DB :=
  match calls with
  | [] => db
  | c :: calls' =>
      AddEach calls' (fst (Add (call_uuid c) (call_commit c) db (call_feed c)))
  end.

(** The database once [NewFeedListStore] has run on a new file. *)
Definition readyDB : bolt.DB := fst (NewFeedListStore None newDB).

(** A database whose value under the key is present and has no bytes. *)
Definition emptyValueDB : bolt.DB :=
  {[ feedListBucket := {[ allFeedsBucketKey := [] ]} ]}.

(** A database whose value under the key is not a document. *)
Definition garbageDB : bolt.DB :=
  {[ feedListBucket := {[ allFeedsBucketKey := list_byte_of_string "not json" ]} ]}.

(** The database after one feed has been registered. *)
Definition exampleDB : bolt.DB :=
  fst (Add (J := canonicalJSON) "id-1" None readyDB exampleFeed).

(** A candidate with the URL of [exampleFeed] and another title. *)
Definition sameURLFeed : Feed :=
  {| ID := "";
     Title := "Example, once more";
     Description := "";
     URL := "http://example.com/rss";
     ImageURL := "";
     Category := "again" |}.

(** A candidate with the URL of the first default feed. *)
Definition defaultURLFeed : Feed :=
  {| ID := "";
     Title := "My BBC";
     Description := "";
     URL := "http://feeds.bbci.co.uk/news/uk/rss.xml";
     ImageURL := "";
     Category := "" |}.

Definition exampleCalls : list AddCall :=
  [ mkAddCall "id-1" None exampleFeed;
    mkAddCall "id-2" None sameURLFeed;
    mkAddCall "id-3" None defaultURLFeed;
    mkAddCall "id-4" (Some (LibraryError "disk full"))
      (mkFeed "" "Other" "" "http://example.org/atom" "" "");
    mkAddCall "id-5" None
      (mkFeed "" "Other" "" "http://example.org/atom" "" "") ].

(** ** package app: the HTTP boundary

    [app] puts the store behind HTTP: [apiMiddleware] admits the requests
    that declare JSON, [apiHandler] turns the reply of an [APIHandler]
    into a response.  Of [net/http] the model keeps what the two write: a
    [ResponseWriter] records the header map, the status and header sent by
    the first [WriteHeader] or [Write], and the bytes written, as
    [httptest.ResponseRecorder] does. *)

Module http.

Definition StatusOK : nat := 200.
Definition StatusUnsupportedMediaType : nat := 415.
Definition StatusInternalServerError : nat := 500.

(** A route parameter, as muxie keeps it in the writer. *)
Record ParamEntry : Type := mkParamEntry {
  Key : string;
  Value : string
}.

Record ResponseWriter : Type := mkResponseWriter {
  header : gmap string string;
  wroteHeader : option (nat * gmap string string);
  written : string;
  params : list ParamEntry
}.

(** The body of a request, as [ioutil.ReadAll] finds it: the bytes read,
    and the error that ended the reading if it was not the end of the
    body. *)
Record Body : Type := mkBody {
  data : list byte;
  fault : option error
}.

Record Request : Type := mkRequest {
  Header : gmap string (list string);
  body : Body
}.

Abbreviation Handler := (ResponseWriter -> Request -> ResponseWriter).

(** [h.Get(key)] for a key in canonical form: the first value, or the
    empty string. *)
Definition Header_Get (h : gmap string (list string)) (key : string) : string :=
  match h !! key with
  | Some (v :: _) => v
  | _ => ""
  end.

(** [w.Header().Set(key, value)]. *)
Definition Header_Set (w : ResponseWriter) (key value : string) : ResponseWriter :=
  {| header := <[key := value]> (header w);
     wroteHeader := wroteHeader w;
     written := written w;
     params := params w |}.

(** [checkWriteHeaderCode]: the codes a first [WriteHeader] takes; on
    any other code it panics. *)
Definition validCode (code : nat) : bool :=
  ((100 <=? code) && (code <=? 999))%nat.

(** [w.WriteHeader(code)]: the first call sends the status with the
    header map as it is then; later calls do nothing.  The model is of the
    calls that return: a first call with a code that is not [validCode]
    panics and is not modelled, so a property of a code the program does
    not fix assumes [validCode] of it. *)
Definition WriteHeader (w : ResponseWriter) (code : nat) : ResponseWriter :=
  match wroteHeader w with
  | Some _ => w
  | None =>
      {| header := header w;
         wroteHeader := Some (code, header w);
         written := written w;
         params := params w |}
  end.

(** [w.Write(data)]: sends status 200 first if no status was sent. *)
Definition Write (w : ResponseWriter) (data : string) : ResponseWriter :=
  let w := WriteHeader w StatusOK in
  {| header := header w;
     wroteHeader := wroteHeader w;
     written := written w +:+ data;
     params := params w |}.

End http.

(** [strings.Split(s, sep)] for a separator of one byte. *)
Fixpoint strings_Split (s : string) (sep : ascii) : list string :=
  match s with
  | EmptyString => [EmptyString]
  | String c rest =>
      if Ascii.eqb c sep then EmptyString :: strings_Split rest sep
      else
        match strings_Split rest sep with
        | part :: parts => String c part :: parts
        | [] => [String c EmptyString]
        end
  end.

(** [ioutil.ReadAll(r.Body)]. *)
Definition ioutil_ReadAll (b : http.Body) : list byte * option error :=
  (http.data b, http.fault b).

(** [muxie.GetParams(w)]. *)
Definition muxie_GetParams (w : http.ResponseWriter) : list http.ParamEntry :=
  http.params w.

(** [err.Error()] for the errors of [feedlist]; an error of a library
    carries its message. *)
Definition error_Error (err : error) : string :=
  match err with
  | ErrorInitializingDB => "Error Initializing DB"
  | ErrorUnconfiguredBucket => "Error Unconfigured Bucket"
  | ErrorStoreFeedListCorrupted => "Corrupted stored field list"
  | ErrorFeedNotFound => "Feed does not exist"
  | LibraryError msg => msg
  end.

Module app.

(** An error as a handler returns it: one that implements [HttpError],
    with its status code and message, or any other error. *)
Inductive herror : Type :=
| HttpError (StatusCode : nat) (msg : string)
| PlainError (err : error).

Definition Error (err : herror) : string :=
  match err with
  | HttpError _ msg => msg
  | PlainError e => error_Error e
  end.

(** What [Handle] returns: a response, or an error. *)
Inductive reply (Rsp : Type) : Type :=
| Reply (rsp : Rsp)
| Failure (err : herror).

Arguments Reply {Rsp} rsp.
Arguments Failure {Rsp} err.

Definition dq : string := String "034"%char EmptyString.

(** [fmt.Sprintf] of the format of [jsonError] and [err.Error()]. *)
Definition jsonError (err : herror) : string :=
  "{" +:+ dq +:+ "error" +:+ dq +:+ ": " +:+ dq +:+ Error err +:+ dq +:+ "}".

Definition notParseable (v : string) : string :=
  "{" +:+ dq +:+ "error" +:+ dq +:+ ": " +:+ dq
    +:+ "Media type (" +:+ v +:+ ") not parseable" +:+ dq +:+ "}".

Definition notSupported (contentType : string) : string :=
  "{" +:+ dq +:+ "error" +:+ dq +:+ ": " +:+ dq
    +:+ "Media type (" +:+ contentType +:+ ") not supported" +:+ dq +:+ "}".

Section Boundary.

(** [mime.ParseMediaType(v)]: the media type, or [None] for an error. *)
Variable mime_ParseMediaType : string -> option string.

(** [fmt.Sprintf(format)] without operands. *)
Variable fmt_Sprintf : string -> string.

(** The responses of the handlers and [json.Marshal] on them. *)
Variable Rsp : Type.
Variable json_Marshal : Rsp -> result (list byte).

Definition Fprintf (w : http.ResponseWriter) (format : string)
    : http.ResponseWriter :=
  http.Write w (fmt_Sprintf format).

(** The loop of [apiMiddleware] over the parts of the Content-Type. *)
Fixpoint apiMiddleware_range (next : http.Handler) (contentType : string)
    (parts : list string) (w : http.ResponseWriter) (r : http.Request)
    : http.ResponseWriter :=
  match parts with
  | [] =>
      http.Write (http.WriteHeader w http.StatusUnsupportedMediaType)
        (notSupported contentType)
  | v :: parts' =>
      match mime_ParseMediaType v with
      | None =>
          http.Write (http.WriteHeader w http.StatusUnsupportedMediaType)
            (notParseable v)
      | Some t =>
          if String.eqb t "application/json" then next w r
          else apiMiddleware_range next contentType parts' w r
      end
  end.

Definition apiMiddleware (next : http.Handler) : http.Handler :=
  fun w r =>
    let contentType := http.Header_Get (http.Header r) "Content-Type" in
    let w := http.Header_Set w "Content-Type" "application/json;charset=utf8" in
    apiMiddleware_range next contentType (strings_Split contentType ",") w r.

(** The loop of [apiHandler] over the route parameters: a later entry
    for a key replaces an earlier one. *)
Definition routeParams (w : http.ResponseWriter) : gmap string string :=
  fold_left (fun params keyPair =>
               <[http.Key keyPair := http.Value keyPair]> params)
            (muxie_GetParams w) ∅.

Definition apiHandler
    (Handle : list byte -> gmap string string -> reply Rsp) : http.Handler :=
  fun w r =>
    let '(b, err) := ioutil_ReadAll (http.body r) in
    let w :=
      match err with
      | Some err => Fprintf w (jsonError (PlainError err))
      | None => w
      end in
    let params := routeParams w in
    match Handle b params with
    | Failure err =>
        match err with
        | HttpError StatusCode _ =>
            Fprintf (http.WriteHeader w StatusCode) (jsonError err)
        | PlainError _ =>
            Fprintf (http.WriteHeader w http.StatusInternalServerError)
              (jsonError err)
        end
    | Reply rsp =>
        match json_Marshal rsp with
        | Err err => Fprintf w (jsonError (PlainError err))
        | Ok jsonRsp => Fprintf w (string_of_list_byte jsonRsp)
        end
    end.

End Boundary.

End app.

(** Instances for the examples of the boundary. *)

(** A parser that knows two media types and rejects everything else. *)
Definition exampleParseMediaType (v : string) : option string :=
  if String.eqb v "application/json" then Some "application/json"
  else if String.eqb v "text/html" then Some "text/html"
  else None.

(** Formats without a verb are written as they are. *)
Definition exampleSprintf (format : string) : string := format.

(** A handler that lists the feeds of a store. *)
Definition exampleListHandler (db : bolt.DB) (b : list byte)
    (params : gmap string string) : app.reply (list Feed) :=
  match ListAll (J := canonicalJSON) db with
  | Ok feeds => app.Reply feeds
  | Err err => app.Failure (app.PlainError err)
  end.

(** A handler that knows no route. *)
Definition exampleNotFoundHandler (b : list byte)
    (params : gmap string string) : app.reply (list Feed) :=
  app.Failure (app.HttpError 404 "Endpoint not found").

Definition newWriter : http.ResponseWriter :=
  {| http.header := ∅;
     http.wroteHeader := None;
     http.written := "";
     http.params := [] |}.

Definition requestOf (contentType : list string) (b : http.Body) : http.Request :=
  {| http.Header := {[ "Content-Type" := contentType ]};
     http.body := b |}.

Definition emptyBody : http.Body :=
  {| http.data := []; http.fault := None |}.

Definition brokenBody : http.Body :=
  {| http.data := []; http.fault := Some (LibraryError "unexpected EOF") |}.

(** A second candidate, and the database after it has been registered
    as well. *)
Definition otherFeed : Feed :=
  {| ID := "";
     Title := "Other";
     Description := "";
     URL := "http://example.org/atom";
     ImageURL := "";
     Category := "" |}.

Definition exampleDB2 : bolt.DB :=
  fst (Add (J := canonicalJSON) "id-5" None exampleDB otherFeed).

(** ** What JSON keeps of a string

    [json.Marshal] writes a string coerced to valid UTF-8, every invalid
    byte replaced by U+FFFD, and [json.Unmarshal] does the same to the
    strings it reads: a string that is valid UTF-8 comes back as it was,
    another one comes back changed.  [coerceFeed coerce feed] is [feed]
    with [coerce] applied to each field. *)

Definition coerceFeed (coerce : string -> string) (feed : Feed) : Feed :=
  {| ID := coerce (ID feed);
     Title := coerce (Title feed);
     Description := coerce (Description feed);
     URL := coerce (URL feed);
     ImageURL := coerce (ImageURL feed);
     Category := coerce (Category feed) |}.

(** The fields a caller chooses are strings that [coerce] keeps. *)
Definition keptFields (coerce : string -> string) (feed : Feed) : Prop :=
  coerce (Title feed) = Title feed /\
  coerce (Description feed) = Description feed /\
  coerce (URL feed) = URL feed /\
  coerce (ImageURL feed) = ImageURL feed /\
  coerce (Category feed) = Category feed.

(** An instance of [JSON] that coerces: the reference instance, with the
    byte 255, which occurs in no UTF-8 encoding, replaced by the three
    bytes of U+FFFD on the way in and on the way out.  It does what
    [encoding/json] does to that byte and leaves every other byte alone. *)

Module replacing.

Fixpoint replaceInvalid (s : string) : string :=
  match s with
  | EmptyString => EmptyString
  | String c s' =>
      if Ascii.eqb c "255"
      then String "239" (String "191" (String "189" (replaceInvalid s')))
      else String c (replaceInvalid s')
  end.

Definition Marshal (v : list Feed) : result (list byte) :=
  canonical.Marshal (coerceFeed replaceInvalid <$> v).

Definition Unmarshal (data : list byte) : result (list Feed) :=
  match canonical.Unmarshal data with
  | Ok v => Ok (coerceFeed replaceInvalid <$> v)
  | Err err => Err err
  end.

End replacing.

Definition replacingJSON : JSON :=
  {| json_Marshal := replacing.Marshal; json_Unmarshal := replacing.Unmarshal |}.

(** A candidate whose URL is the one byte 255, and a new store after it
    has been added once and twice. *)
Definition invalidURLFeed : Feed :=
  {| ID := "";
     Title := "Invalid";
     Description := "";
     URL := String "255" EmptyString;
     ImageURL := "";
     Category := "" |}.

Definition invalidDB1 : bolt.DB :=
  fst (Add (J := replacingJSON) "uuid-1" None readyDB invalidURLFeed).

Definition invalidDB2 : bolt.DB :=
  fst (Add (J := replacingJSON) "uuid-2" None invalidDB1 invalidURLFeed).

Definition invalidCalls : list AddCall :=
  [ mkAddCall "uuid-1" None invalidURLFeed;
    mkAddCall "uuid-2" None invalidURLFeed ].

(** The URL the two records are read back with: U+FFFD. *)
Definition replacementURL : string :=
  String "239" (String "191" (String "189" EmptyString)).

(** * Properties *)

(** ** The reference instance meets the laws *)

Lemma canonical_read_escape_char (c : ascii) (t : string) :
  canonical.read_chars (canonical.escape_char c t)
  = canonical.with_head c (canonical.read_chars t).
Proof. destruct c as [[] [] [] [] [] [] [] []]; reflexivity. Qed.

Lemma canonical_read_escape (s rest : string) :
  canonical.read_chars (canonical.escape s (String canonical.quote rest))
  = Some (s, rest).
Proof.
  induction s as [|c s IH]; [reflexivity|].
  cbn [canonical.escape]. now rewrite canonical_read_escape_char, IH.
Qed.

Lemma canonical_read_write_string (v rest : string) :
  canonical.read_string (canonical.write_string v rest) = Some (v, rest).
Proof. apply canonical_read_escape. Qed.

Lemma canonical_expect_char (c : ascii) (rest : string) :
  canonical.expect (String c EmptyString) (String c rest) = Some rest.
Proof. cbn [canonical.expect]. now rewrite Ascii.eqb_refl. Qed.

Lemma canonical_expect_name (name tail rest : string) :
  canonical.expect (name +:+ tail) (name +:+ rest) = canonical.expect tail rest.
Proof.
  induction name as [|c name IH]; [reflexivity|].
  change (String c name +:+ tail) with (String c (name +:+ tail)).
  change (String c name +:+ rest) with (String c (name +:+ rest)).
  cbn [canonical.expect]. now rewrite Ascii.eqb_refl.
Qed.

Lemma canonical_read_write_field (name v rest : string) :
  canonical.read_field name (canonical.write_field name v rest) = Some (v, rest).
Proof.
  unfold canonical.read_field, canonical.write_field.
  cbn [canonical.expect]. rewrite Ascii.eqb_refl, canonical_expect_name.
  cbn [canonical.expect]. rewrite !Ascii.eqb_refl.
  apply canonical_read_write_string.
Qed.

Lemma canonical_read_write_feed (f : Feed) (rest : string) :
  canonical.read_feed (canonical.write_feed f rest) = Some (f, rest).
Proof.
  unfold canonical.read_feed, canonical.write_feed.
  repeat (rewrite canonical_expect_char || rewrite canonical_read_write_field).
  now destruct f.
Qed.

Lemma string_length_append (a b : string) :
  String.length (a +:+ b) = String.length a + String.length b.
Proof.
  induction a as [|c a IH]; [reflexivity|].
  change (String c a +:+ b) with (String c (a +:+ b)).
  cbn [String.length]. now rewrite IH.
Qed.

Lemma canonical_length_escape (s rest : string) :
  String.length rest <= String.length (canonical.escape s rest).
Proof.
  induction s as [|c s IH]; cbn [canonical.escape]; [lia|].
  unfold canonical.escape_char.
  repeat match goal with |- context [if ?b then _ else _] => destruct b end;
    cbn [String.length]; lia.
Qed.

Lemma canonical_length_write_field (name v rest : string) :
  String.length rest <= String.length (canonical.write_field name v rest).
Proof.
  unfold canonical.write_field, canonical.write_string.
  cbn [String.length]. rewrite string_length_append. cbn [String.length].
  pose proof (canonical_length_escape v (String canonical.quote rest)) as H.
  cbn [String.length] in H. lia.
Qed.

Lemma canonical_length_write_feed (f : Feed) (rest : string) :
  String.length rest < String.length (canonical.write_feed f rest).
Proof.
  assert (Hf : forall n v r k,
             k <= String.length r ->
             k <= String.length (canonical.write_field n v r)).
  { intros n v r k Hk. pose proof (canonical_length_write_field n v r). lia. }
  assert (Hc : forall c r k,
             k <= String.length r -> k <= String.length (String c r)).
  { intros c r k Hk. cbn [String.length]. lia. }
  unfold canonical.write_feed. cbn [String.length]. apply Nat.lt_succ_r.
  repeat (apply Hf; apply Hc). reflexivity.
Qed.

Lemma canonical_length_write_more (l : list Feed) :
  length l < String.length (canonical.write_more l).
Proof.
  induction l as [|f l IH]; cbn [canonical.write_more length String.length]; [lia|].
  pose proof (canonical_length_write_feed f (canonical.write_more l)). lia.
Qed.

Lemma canonical_read_write_more (l : list Feed) (fuel : nat) :
  length l < fuel ->
  canonical.read_more fuel (canonical.write_more l) = Some l.
Proof.
  revert fuel. induction l as [|f l IH]; intros [|fuel] Hlt;
    cbn [length] in Hlt; try lia; [reflexivity|].
  cbn [canonical.write_more canonical.read_more].
  rewrite canonical_read_write_feed, IH by lia. reflexivity.
Qed.

Lemma canonical_decode_encode (l : list Feed) :
  canonical.decode (canonical.encode l) = Some l.
Proof.
  destruct l as [|f l]; [reflexivity|].
  unfold canonical.decode, canonical.encode.
  change (String.eqb (String "[" ?s) "null") with false.
  change (String.eqb (String "[" (canonical.write_feed f ?s)) "[]") with false.
  cbv iota. rewrite canonical_expect_char, canonical_read_write_feed.
  rewrite canonical_read_write_more by apply canonical_length_write_more.
  reflexivity.
Qed.

(** [json.Unmarshal] gives back what [json.Marshal] was given. *)
Lemma canonical_unmarshal_marshal (v : list Feed) (data : list byte) :
  canonical.Marshal v = Ok data -> canonical.Unmarshal data = Ok v.
Proof.
  unfold canonical.Marshal, canonical.Unmarshal. intros [= <-].
  now rewrite string_of_list_byte_of_string, canonical_decode_encode.
Qed.

(** A document is never empty. *)
Lemma canonical_marshal_nonempty (v : list Feed) (data : list byte) :
  canonical.Marshal v = Ok data -> data <> [].
Proof.
  unfold canonical.Marshal. intros [= <-]. now destruct v.
Qed.

(** No bytes at all are not a document. *)
Lemma canonical_unmarshal_empty :
  canonical.Unmarshal [] = Err (LibraryError "invalid JSON").
Proof. reflexivity. Qed.

(** ** Lists *)

Lemma find_app {A : Type} (p : A -> bool) (l1 l2 : list A) :
  find p (l1 ++ l2)
  = match find p l1 with Some x => Some x | None => find p l2 end.
Proof.
  induction l1 as [|a l1 IH]; [reflexivity|].
  cbn [app find]. now destruct (p a).
Qed.

Lemma find_first {A : Type} (p : A -> bool) (l : list A) (x : A) :
  find p l = Some x <->
  exists pre post,
    l = pre ++ x :: post /\ p x = true /\ forall y, y ∈ pre -> p y = false.
Proof.
  induction l as [|a l IH]; cbn [find].
  - split; [discriminate|]. intros (pre & post & Heq & _).
    now destruct pre.
  - destruct (p a) eqn:Hpa.
    + split.
      * intros [= ->]. exists [], l. now repeat split.
      * intros (pre & post & Heq & Hpx & Hpre). destruct pre as [|b pre].
        -- now injection Heq as -> _.
        -- injection Heq as -> _. rewrite Hpre in Hpa by apply list_elem_of_here.
           discriminate.
    + rewrite IH. split.
      * intros (pre & post & -> & Hpx & Hpre). exists (a :: pre), post.
        repeat split; [assumption|].
        intros y [->|Hy]%elem_of_cons; auto.
      * intros (pre & post & Heq & Hpx & Hpre). destruct pre as [|b pre].
        -- injection Heq as -> _. congruence.
        -- injection Heq as -> ->. exists pre, post.
           repeat split; [assumption|]. intros y Hy. apply Hpre.
           now apply list_elem_of_further.
Qed.

Lemma NoDup_fmap_elem {A B : Type} (f : A -> B) (l : list A) (x y : A) :
  NoDup (f <$> l) -> x ∈ l -> y ∈ l -> f x = f y -> x = y.
Proof.
  induction l as [|a l IH]; csimpl; [now intros _ ?%elem_of_nil|].
  intros [Hnotin Hnodup]%NoDup_cons [->|Hx]%elem_of_cons [->|Hy]%elem_of_cons Hf.
  - reflexivity.
  - destruct Hnotin. rewrite Hf. now apply list_elem_of_fmap_2.
  - destruct Hnotin. rewrite <- Hf. now apply list_elem_of_fmap_2.
  - now apply IH.
Qed.

Lemma default_URLs_NoDup : NoDup (URL <$> defaultFeedsList).
Proof.
  cbn.
  repeat (apply NoDup_cons_2;
          [rewrite ?elem_of_cons, elem_of_nil; intuition discriminate|]).
  apply NoDup_nil_2.
Qed.

(** ** The read path *)

Section ReadPath.

Context {J : JSON}.

Lemma listStored_errors (db : bolt.DB) (e : error) :
  listStored db = Err e ->
  e = ErrorUnconfiguredBucket \/ e = ErrorStoreFeedListCorrupted.
Proof.
  unfold listStored, bolt.View, bolt.Tx_Bucket, bolt.Bucket_Get.
  destruct (db !! feedListBucket) as [bucket|]; [|intros [= <-]; now left].
  destruct (len (bucket !! allFeedsBucketKey) =? 0)%nat; [discriminate|].
  destruct (json_Unmarshal _); [discriminate|].
  intros [= <-]. now right.
Qed.

Lemma ListAll_listStored (db : bolt.DB) :
  ListAll db
  = match listStored db with
    | Err err => Err err
    | Ok storedFeedList => Ok (defaultFeedsList ++ storedFeedList)
    end.
Proof.
  unfold ListAll. now destruct (listStored db) as [[|f l]|e].
Qed.

Lemma listStored_rejected (db : bolt.DB) (bucket : bolt.Bucket) (raw : list byte) :
  bolt.Tx_Bucket db feedListBucket = Some bucket ->
  bolt.Bucket_Get bucket allFeedsBucketKey = Some raw ->
  raw <> [] ->
  failed (json_Unmarshal raw) = true ->
  listStored db = Err ErrorStoreFeedListCorrupted.
Proof.
  unfold listStored, bolt.View. intros -> -> Hraw Hfail.
  destruct raw as [|b raw]; [easy|]. cbn [len length Nat.eqb bytes].
  now destruct (json_Unmarshal (b :: raw)).
Qed.

End ReadPath.

(** ** The claims on the read path *)

Section ReadClaims.

Context {J : JSON}.

(** C4, amended. The errors of [listStored]: without the bucket it
    fails with [ErrorUnconfiguredBucket]; with the bucket and no value
    under the key it returns the empty list; with a value of one byte or
    more that [json.Unmarshal] rejects it fails with
    [ErrorStoreFeedListCorrupted]. *)
Theorem listStored_taxonomy (db : bolt.DB) :
  (bolt.Tx_Bucket db feedListBucket = None ->
   listStored db = Err ErrorUnconfiguredBucket) /\
  (forall bucket,
     bolt.Tx_Bucket db feedListBucket = Some bucket ->
     bolt.Bucket_Get bucket allFeedsBucketKey = None ->
     listStored db = Ok []) /\
  (forall bucket raw,
     bolt.Tx_Bucket db feedListBucket = Some bucket ->
     bolt.Bucket_Get bucket allFeedsBucketKey = Some raw ->
     raw <> [] ->
     failed (json_Unmarshal raw) = true ->
     listStored db = Err ErrorStoreFeedListCorrupted).
Proof.
  unfold listStored, bolt.View. repeat split.
  - now intros ->.
  - now intros bucket -> ->.
  - intros bucket raw. apply listStored_rejected.
Qed.

(** C5. [GetByID] returns the first feed of [ListAll] that has the
    identifier; it fails with [ErrorFeedNotFound] exactly when [ListAll]
    succeeds and no feed has the identifier; an error of [ListAll] is
    returned as it is. *)
Theorem GetByID_correct (db : bolt.DB) (id : string) :
  (forall feed,
     GetByID db id = Ok feed <->
     exists before after,
       ListAll db = Ok (before ++ feed :: after) /\
       ID feed = id /\
       forall other, other ∈ before -> ID other <> id) /\
  (GetByID db id = Err ErrorFeedNotFound <->
   exists feeds,
     ListAll db = Ok feeds /\ forall other, other ∈ feeds -> ID other <> id) /\
  (forall err, ListAll db = Err err -> GetByID db id = Err err).
Proof.
  assert (Hall : forall e, ListAll db = Err e -> e <> ErrorFeedNotFound).
  { intros e. rewrite ListAll_listStored.
    destruct (listStored db) as [l|e'] eqn:Hl; [discriminate|].
    intros [= <-]. now destruct (listStored_errors _ _ Hl) as [-> | ->]. }
  unfold GetByID. destruct (ListAll db) as [feeds|e]; repeat split.
  - destruct (find _ feeds) as [g|] eqn:Hfind; [|discriminate].
    intros [= ->]. apply find_first in Hfind
      as (before & after & -> & Hid%String.eqb_eq & Hbefore).
    exists before, after. repeat split; [assumption|].
    intros other Hin. now apply String.eqb_neq, Hbefore.
  - intros (before & after & [= ->] & Hid & Hbefore).
    assert (find (fun feed0 => String.eqb (ID feed0) id) (before ++ feed :: after)
            = Some feed) as ->; [|reflexivity].
    apply find_first. exists before, after. repeat split.
    + now apply String.eqb_eq.
    + intros other Hin. now apply String.eqb_neq, Hbefore.
  - destruct (find _ feeds) as [g|] eqn:Hfind; [discriminate|].
    intros _. exists feeds. split; [reflexivity|].
    intros other Hin%list_elem_of_In.
    now apply String.eqb_neq, (find_none _ _ Hfind).
  - intros (feeds' & [= <-] & Hnone).
    destruct (find _ feeds) as [g|] eqn:Hfind; [|reflexivity].
    apply find_some in Hfind as [Hin%list_elem_of_In Hid%String.eqb_eq].
    now destruct (Hnone g Hin).
  - discriminate.
  - discriminate.
  - intros (before & after & [=] & _).
  - intros [= ->]. now destruct (Hall _ eq_refl).
  - intros (feeds & [=] & _).
  - now intros err [= ->].
Qed.

(** C10. A value that is present and has no bytes is read as no value:
    [listStored] returns the empty list and [ListAll] the default list,
    neither fails. *)
Theorem listStored_empty_value (db : bolt.DB) (bucket : bolt.Bucket) :
  bolt.Tx_Bucket db feedListBucket = Some bucket ->
  bolt.Bucket_Get bucket allFeedsBucketKey = Some [] ->
  listStored db = Ok [] /\ ListAll db = Ok defaultFeedsList.
Proof.
  intros Hb Hv. assert (listStored db = Ok []) as Hl.
  { unfold listStored, bolt.View. now rewrite Hb, Hv. }
  split; [assumption|]. unfold ListAll. now rewrite Hl.
Qed.

End ReadClaims.

(** ** The write path *)

Section WritePath.

Context {J : JSON}.

(** The three ways [Add] ends: with an error, with the identifier of
    the first feed that has the URL (stored feeds before default ones),
    both without a write; or, the URL being new, with the new identifier
    after the whole new list has been put under the key. *)
Lemma Add_cases (newID : string) (commit : option error) (db db' : bolt.DB)
    (feed : Feed) (r : result string) :
  Add newID commit db feed = (db', r) ->
  (db' = db /\ failed r = true) \/
  (db' = db /\
   exists existingFeeds existingFeed,
     listStored db = Ok existingFeeds /\
     find (hasURL (URL feed)) (existingFeeds ++ defaultFeedsList)
     = Some existingFeed /\
     r = Ok (ID existingFeed)) \/
  (exists bucket existingFeeds rawFeed,
     bolt.Tx_Bucket db feedListBucket = Some bucket /\
     listStored db = Ok existingFeeds /\
     find (hasURL (URL feed)) (existingFeeds ++ defaultFeedsList) = None /\
     json_Marshal (existingFeeds ++ [set_ID feed newID]) = Ok rawFeed /\
     r = Ok newID /\
     db' = <[feedListBucket := <[allFeedsBucketKey := rawFeed]> bucket]> db).
Proof.
  unfold Add.
  destruct (listStored db) as [existing|e]; [|intros [= <- <-]; now left].
  change (fun existingFeed : Feed =>
            String.eqb (URL existingFeed) (URL (set_ID feed newID)))
    with (hasURL (URL feed)).
  destruct (find (hasURL (URL feed)) existing) as [e|] eqn:Hstored.
  { intros [= <- <-]. right; left. split; [reflexivity|].
    exists existing, e. now rewrite find_app, Hstored. }
  destruct (find (hasURL (URL feed)) defaultFeedsList) as [e|] eqn:Hdefault.
  { intros [= <- <-]. right; left. split; [reflexivity|].
    exists existing, e. now rewrite find_app, Hstored. }
  destruct (json_Marshal _) as [raw|e] eqn:Hraw; [|intros [= <- <-]; now left].
  unfold bolt.Update.
  destruct (bolt.Tx_Bucket db feedListBucket) as [bucket|];
    [|intros [= <- <-]; now left].
  unfold bolt.Bucket_Put. cbn [String.length allFeedsBucketKey Nat.eqb].
  change (bolt.MaxKeySize <? Z.of_nat 3)%Z with false. cbv iota.
  destruct (bolt.MaxValueSize <? _)%Z; [intros [= <- <-]; now left|].
  destruct commit as [e|]; intros [= <- <-]; [now left|].
  right; right. exists bucket, existing, raw.
  now rewrite find_app, Hstored.
Qed.

Lemma hasURL_none (url : string) (feeds : list Feed) :
  find (hasURL url) feeds = None <->
  forall existingFeed, existingFeed ∈ feeds -> URL existingFeed <> url.
Proof.
  split.
  - intros Hnone e Hin%list_elem_of_In.
    now apply String.eqb_neq, (find_none _ _ Hnone).
  - intros Hall. destruct (find (hasURL url) feeds) as [e|] eqn:Hfind;
      [|reflexivity].
    apply find_some in Hfind as [Hin%list_elem_of_In Hurl%String.eqb_eq].
    now destruct (Hall e Hin).
Qed.

(** C9. When [Add] returns an error the database is what it was; and
    whatever [Add] returns, the database is either what it was or the
    value under the key has been replaced by the whole new list. *)
Theorem Add_error_atomic (newID : string) (commit : option error)
    (db db' : bolt.DB) (feed : Feed) (r : result string) :
  Add newID commit db feed = (db', r) ->
  (failed r = true -> db' = db) /\
  (db' = db \/
   exists bucket existingFeeds rawFeed,
     bolt.Tx_Bucket db feedListBucket = Some bucket /\
     listStored db = Ok existingFeeds /\
     json_Marshal (existingFeeds ++ [set_ID feed newID]) = Ok rawFeed /\
     r = Ok newID /\
     db' = <[feedListBucket := <[allFeedsBucketKey := rawFeed]> bucket]> db).
Proof.
  intros [[-> _]|[[-> _]|(bucket & existing & raw & Hb & Hl & _ & Hraw & -> & ->)]]%Add_cases.
  - split; [reflexivity|now left].
  - split; [reflexivity|now left].
  - split; [discriminate|]. right. now exists bucket, existing, raw.
Qed.

(** C7, amended. When the value under the key has one byte or more and
    [json.Unmarshal] rejects it, [ListAll], [Add] and [GetByID] all fail
    with [ErrorStoreFeedListCorrupted], and [Add] writes nothing. *)
Theorem corrupted_store_fails (db : bolt.DB) (bucket : bolt.Bucket)
    (raw : list byte) :
  bolt.Tx_Bucket db feedListBucket = Some bucket ->
  bolt.Bucket_Get bucket allFeedsBucketKey = Some raw ->
  raw <> [] ->
  failed (json_Unmarshal raw) = true ->
  ListAll db = Err ErrorStoreFeedListCorrupted /\
  (forall newID commit feed,
     Add newID commit db feed = (db, Err ErrorStoreFeedListCorrupted)) /\
  (forall id, GetByID db id = Err ErrorStoreFeedListCorrupted).
Proof.
  intros Hb Hv Hraw Hfail.
  assert (listStored db = Err ErrorStoreFeedListCorrupted) as Hl.
  { now apply listStored_rejected with bucket raw. }
  assert (ListAll db = Err ErrorStoreFeedListCorrupted) as Hall.
  { unfold ListAll. now rewrite Hl. }
  repeat split.
  - assumption.
  - intros newID commit feed. unfold Add. now rewrite Hl.
  - intros id. unfold GetByID. now rewrite Hall.
Qed.

End WritePath.

(** ** What the store owes to the round trip through JSON *)

Section RoundTrip.

Context {J : JSON}.

(** What a string is after [json.Marshal] and [json.Unmarshal]: itself
    when it is valid UTF-8. *)
Variable json_coerce : string -> string.

(** [json.Unmarshal] gives back the list [json.Marshal] was given, with
    every string coerced. *)
Hypothesis unmarshal_marshal :
  forall (v : list Feed) (data : list byte),
    json_Marshal v = Ok data ->
    json_Unmarshal data = Ok (coerceFeed json_coerce <$> v).

(** The strings [json.Unmarshal] returns are coerced already. *)
Hypothesis unmarshal_coerced :
  forall (data : list byte) (v : list Feed),
    json_Unmarshal data = Ok v -> coerceFeed json_coerce <$> v = v.

(** A document has at least one byte. *)
Hypothesis marshal_nonempty :
  forall (v : list Feed) (data : list byte),
    json_Marshal v = Ok data -> data <> [].

Lemma listStored_coerced (db : bolt.DB) (stored : list Feed) :
  listStored db = Ok stored -> coerceFeed json_coerce <$> stored = stored.
Proof.
  unfold listStored, bolt.View.
  destruct (bolt.Tx_Bucket db feedListBucket) as [bucket|]; [|discriminate].
  destruct (len _ =? 0)%nat; [now intros [= <-]|].
  destruct (json_Unmarshal _) as [v|e] eqn:Hv; [|discriminate].
  intros [= <-]. exact (unmarshal_coerced _ _ Hv).
Qed.

Lemma listStored_after_Put (db : bolt.DB) (bucket : bolt.Bucket)
    (v : list Feed) (data : list byte) :
  json_Marshal v = Ok data ->
  listStored (<[feedListBucket := <[allFeedsBucketKey := data]> bucket]> db)
  = Ok (coerceFeed json_coerce <$> v).
Proof.
  intros Hdata. unfold listStored, bolt.View, bolt.Tx_Bucket, bolt.Bucket_Get.
  rewrite lookup_insert_eq, lookup_insert_eq.
  pose proof (marshal_nonempty _ _ Hdata) as Hne.
  destruct data as [|b data]; [easy|]. cbn [len length Nat.eqb bytes].
  now rewrite (unmarshal_marshal _ _ Hdata).
Qed.

(** [Add] in terms of the stored list before and after: what is appended
    is the candidate under its new identifier, as JSON keeps it. *)
Lemma Add_stored (newID : string) (commit : option error) (db db' : bolt.DB)
    (feed : Feed) (r : result string) :
  Add newID commit db feed = (db', r) ->
  (db' = db /\ failed r = true) \/
  (db' = db /\
   exists existingFeeds existingFeed,
     listStored db = Ok existingFeeds /\
     find (hasURL (URL feed)) (existingFeeds ++ defaultFeedsList)
     = Some existingFeed /\
     r = Ok (ID existingFeed)) \/
  (exists existingFeeds,
     listStored db = Ok existingFeeds /\
     find (hasURL (URL feed)) (existingFeeds ++ defaultFeedsList) = None /\
     r = Ok newID /\
     listStored db'
     = Ok (existingFeeds ++ [coerceFeed json_coerce (set_ID feed newID)])).
Proof.
  intros [H|[H|(bucket & existing & raw & Hb & Hl & Hnone & Hraw & -> & ->)]]%Add_cases;
    [now left|now (right; left)|].
  right; right. exists existing.
  split; [assumption|]. split; [assumption|]. split; [reflexivity|].
  rewrite (listStored_after_Put _ _ _ _ Hraw), fmap_app.
  now rewrite (listStored_coerced _ _ Hl).
Qed.

(** The stored list only grows, at its end, by candidates of the calls
    in the order of the calls. *)
Lemma AddEach_stored (calls : list AddCall) (db : bolt.DB) (stored : list Feed) :
  listStored db = Ok stored ->
  exists added,
    listStored (AddEach calls db) = Ok (stored ++ added) /\
    added `sublist_of` (coerceFeed json_coerce <$> (stamped <$> calls)).
Proof.
  revert db stored. induction calls as [|c calls IH]; intros db stored Hl.
  - exists []. rewrite app_nil_r. split; [assumption|reflexivity].
  - cbn [AddEach].
    destruct (Add (call_uuid c) (call_commit c) db (call_feed c))
      as [db1 r] eqn:Hadd. cbn [fst].
    change (coerceFeed json_coerce <$> (stamped <$> c :: calls))
      with ([coerceFeed json_coerce (stamped c)]
            ++ (coerceFeed json_coerce <$> (stamped <$> calls))).
    apply Add_stored in Hadd
      as [[-> _]|[[-> _]|(ex & Hl' & _ & _ & Hl1)]].
    + destruct (IH db stored Hl) as (added & Hl2 & Hsub).
      exists added. split; [assumption|]. now apply sublist_inserts_l.
    + destruct (IH db stored Hl) as (added & Hl2 & Hsub).
      exists added. split; [assumption|]. now apply sublist_inserts_l.
    + rewrite Hl in Hl'. injection Hl' as <-.
      destruct (IH db1 _ Hl1) as (added & Hl2 & Hsub).
      exists ([coerceFeed json_coerce (stamped c)] ++ added).
      rewrite app_assoc. split; [assumption|]. now apply sublist_app.
Qed.

(** For candidates whose URL JSON keeps, [Add] keeps the URLs of the
    listing distinct. *)
Lemma AddEach_unique_kept (calls : list AddCall) (db : bolt.DB)
    (stored : list Feed) :
  Forall (fun c => json_coerce (URL (call_feed c)) = URL (call_feed c)) calls ->
  listStored db = Ok stored ->
  NoDup (URL <$> (defaultFeedsList ++ stored)) ->
  exists stored',
    listStored (AddEach calls db) = Ok stored' /\
    NoDup (URL <$> (defaultFeedsList ++ stored')).
Proof.
  intros Hkept. revert db stored.
  induction Hkept as [|c calls Hc _ IH]; intros db stored Hl Hnodup.
  - now exists stored.
  - cbn [AddEach].
    destruct (Add (call_uuid c) (call_commit c) db (call_feed c))
      as [db1 r] eqn:Hadd. cbn [fst].
    apply Add_stored in Hadd
      as [[-> _]|[[-> _]|(ex & Hl' & Hnone & _ & Hl1)]].
    + now apply (IH db stored).
    + now apply (IH db stored).
    + rewrite Hl in Hl'. injection Hl' as <-.
      apply (IH db1 _ Hl1).
      rewrite app_assoc, fmap_app. apply NoDup_app.
      split; [assumption|]. split; [|apply NoDup_singleton].
      intros url (e & -> & Hin)%list_elem_of_fmap Hurl.
      apply list_elem_of_singleton in Hurl. cbn in Hurl. rewrite Hc in Hurl.
      rewrite hasURL_none in Hnone. apply (Hnone e); [|assumption].
      apply elem_of_app. apply elem_of_app in Hin. tauto.
Qed.

Lemma GetByID_member (db : bolt.DB) (feeds : list Feed) (existingFeed : Feed) :
  ListAll db = Ok feeds ->
  existingFeed ∈ feeds ->
  exists feed, GetByID db (ID existingFeed) = Ok feed /\ ID feed = ID existingFeed.
Proof.
  intros Hall Hin. unfold GetByID. rewrite Hall.
  destruct (find _ feeds) as [g|] eqn:Hfind.
  - exists g. split; [reflexivity|].
    now apply find_some in Hfind as [_ Hid%String.eqb_eq].
  - apply list_elem_of_In in Hin.
    pose proof (find_none _ _ Hfind _ Hin) as Hid. cbn in Hid.
    now rewrite String.eqb_refl in Hid.
Qed.

(** C3. Merge order: when [ListAll] succeeds it returns the default
    list, in its order, followed by the stored list and nothing else; and
    the stored list is in insertion order: whatever calls of [Add] follow,
    the listing keeps what it had and continues with candidates of these
    calls, as JSON keeps them, in the order of the calls. *)
Theorem ListAll_merge_order (db : bolt.DB) (feeds : list Feed)
    (calls : list AddCall) :
  ListAll db = Ok feeds ->
  exists storedFeedList,
    listStored db = Ok storedFeedList /\
    feeds = defaultFeedsList ++ storedFeedList /\
    exists added,
      listStored (AddEach calls db) = Ok (storedFeedList ++ added) /\
      ListAll (AddEach calls db)
      = Ok (defaultFeedsList ++ (storedFeedList ++ added)) /\
      added `sublist_of` (coerceFeed json_coerce <$> (stamped <$> calls)).
Proof.
  rewrite ListAll_listStored.
  destruct (listStored db) as [stored|e] eqn:Hl; [|discriminate].
  intros [= <-]. exists stored. split; [reflexivity|]. split; [reflexivity|].
  destruct (AddEach_stored calls db stored Hl) as (added & Hl' & Hsub).
  exists added. split; [assumption|]. split; [|assumption].
  now rewrite ListAll_listStored, Hl'.
Qed.

(** C6. The store alone assigns identifiers: [Add] behaves the same
    whatever identifier the caller put in the candidate; and when no
    feed has the candidate's URL, a successful [Add] returns the new
    identifier and has appended one record, the candidate as JSON keeps
    it, under that identifier (an identifier JSON keeps, as those of
    [uuid.NewString()] are). *)
Theorem Add_assigns_ID (newID : string) (commit : option error)
    (db : bolt.DB) (feed : Feed) :
  (forall callerID,
     Add newID commit db (set_ID feed callerID) = Add newID commit db feed) /\
  (forall db' id,
     Add newID commit db feed = (db', Ok id) ->
     (forall feeds existingFeed,
        ListAll db = Ok feeds -> existingFeed ∈ feeds ->
        URL existingFeed <> URL feed) ->
     json_coerce newID = newID ->
     id = newID /\
     exists stored appended,
       listStored db = Ok stored /\
       listStored db' = Ok (stored ++ [appended]) /\
       appended = coerceFeed json_coerce (set_ID feed newID) /\
       ID appended = newID).
Proof.
  split; [reflexivity|]. intros db' id Hadd Hnew HnewID.
  apply Add_stored in Hadd
    as [[_ [=]]|[[-> (ex & e & Hl & Hfind & [= ->])]
                |(ex & Hl & Hnone & [= ->] & Hl1)]].
  - apply find_some in Hfind as [Hin%list_elem_of_In Hu%String.eqb_eq].
    destruct (Hnew (defaultFeedsList ++ ex) e); [| |assumption].
    + now rewrite ListAll_listStored, Hl.
    + apply elem_of_app. apply elem_of_app in Hin. tauto.
  - split; [reflexivity|].
    exists ex, (coerceFeed json_coerce (set_ID feed newID)).
    split; [assumption|]. split; [assumption|]. split; [reflexivity|].
    exact HnewID.
Qed.

(** C8, amended. After a successful [Add], with an identifier drawn
    that JSON keeps, [GetByID] of the returned identifier succeeds with a
    feed that has this identifier; when moreover no feed had the
    candidate's URL or the new identifier, and the candidate's Title,
    Description, URL, ImageURL and Category are strings JSON keeps, that
    feed has the candidate's Title, Description, URL, ImageURL and
    Category. *)
Theorem Add_GetByID (newID : string) (commit : option error)
    (db db' : bolt.DB) (f : Feed) (id : string) :
  Add newID commit db f = (db', Ok id) ->
  json_coerce newID = newID ->
  (exists feed, GetByID db' id = Ok feed /\ ID feed = id) /\
  ((forall feeds existingFeed,
      ListAll db = Ok feeds -> existingFeed ∈ feeds ->
      URL existingFeed <> URL f /\ ID existingFeed <> newID) ->
   keptFields json_coerce f ->
   exists feed,
     GetByID db' id = Ok feed /\
     ID feed = id /\
     Title feed = Title f /\
     Description feed = Description f /\
     URL feed = URL f /\
     ImageURL feed = ImageURL f /\
     Category feed = Category f).
Proof.
  intros Hadd HnewID.
  apply Add_stored in Hadd
    as [[_ [=]]|[[-> (ex & e & Hl & Hfind & [= ->])]
                |(ex & Hl & Hnone & [= ->] & Hl1)]].
  - assert (ListAll db = Ok (defaultFeedsList ++ ex)) as Hall
      by now rewrite ListAll_listStored, Hl.
    assert (e ∈ defaultFeedsList ++ ex) as Hin.
    { apply find_some in Hfind as [Hin%list_elem_of_In _].
      apply elem_of_app. apply elem_of_app in Hin. tauto. }
    split; [now apply GetByID_member with (defaultFeedsList ++ ex)|].
    intros Hnew _. destruct (Hnew _ e Hall Hin) as [Hu _].
    now apply find_some in Hfind as [_ Hu'%String.eqb_eq].
  - set (appended := coerceFeed json_coerce (set_ID f newID)) in *.
    assert (ID appended = newID) as Hid by exact HnewID.
    assert (ListAll db' = Ok (defaultFeedsList ++ ex ++ [appended]))
      as Hall' by now rewrite ListAll_listStored, Hl1.
    split.
    + rewrite <- Hid. apply (GetByID_member db' _ appended Hall').
      rewrite app_assoc. apply elem_of_app. right. apply list_elem_of_here.
    + intros Hnew (Ht & Hd & Hu & Hi & Hc). exists appended.
      split; [|split; [assumption|now repeat split]].
      unfold GetByID. rewrite Hall', app_assoc, find_app.
      destruct (find _ (defaultFeedsList ++ ex)) as [g|] eqn:Hfind.
      * apply find_some in Hfind as [Hin%list_elem_of_In Hg%String.eqb_eq].
        destruct (Hnew (defaultFeedsList ++ ex) g) as [_ Hfresh];
          [now rewrite ListAll_listStored, Hl|assumption|easy].
      * cbn [find]. rewrite Hid. now rewrite String.eqb_refl.
Qed.

End RoundTrip.

(** ** The coercing instance meets the laws *)

Lemma replaceInvalid_idempotent (s : string) :
  replacing.replaceInvalid (replacing.replaceInvalid s)
  = replacing.replaceInvalid s.
Proof.
  induction s as [|c s IH]; [reflexivity|]. cbn [replacing.replaceInvalid].
  destruct (Ascii.eqb c "255") eqn:Hc; cbn [replacing.replaceInvalid].
  - change (Ascii.eqb "239" "255") with false.
    change (Ascii.eqb "191" "255") with false.
    change (Ascii.eqb "189" "255") with false. cbv iota. now rewrite IH.
  - now rewrite Hc, IH.
Qed.

Lemma replacing_coerced (v : list Feed) :
  coerceFeed replacing.replaceInvalid <$> (coerceFeed replacing.replaceInvalid <$> v)
  = coerceFeed replacing.replaceInvalid <$> v.
Proof.
  induction v as [|f v IH]; [reflexivity|]. cbn [fmap list_fmap] in *.
  rewrite IH. f_equal. unfold coerceFeed. cbn [ID Title Description URL ImageURL Category].
  now rewrite !replaceInvalid_idempotent.
Qed.

Lemma replacing_unmarshal_marshal (v : list Feed) (data : list byte) :
  replacing.Marshal v = Ok data ->
  replacing.Unmarshal data = Ok (coerceFeed replacing.replaceInvalid <$> v).
Proof.
  unfold replacing.Marshal, replacing.Unmarshal. intros Hdata.
  rewrite (canonical_unmarshal_marshal _ _ Hdata).
  now rewrite replacing_coerced.
Qed.

Lemma replacing_unmarshal_coerced (data : list byte) (v : list Feed) :
  replacing.Unmarshal data = Ok v ->
  coerceFeed replacing.replaceInvalid <$> v = v.
Proof.
  unfold replacing.Unmarshal.
  destruct (canonical.Unmarshal data) as [v0|e]; [|discriminate].
  intros [= <-]. apply replacing_coerced.
Qed.

Lemma replacing_marshal_nonempty (v : list Feed) (data : list byte) :
  replacing.Marshal v = Ok data -> data <> [].
Proof. apply canonical_marshal_nonempty. Qed.

(** A new store lists the default feeds, whatever the instance of JSON;
    they have other URLs and other identifiers than the example feed
    registered as ["id-1"]. *)
Lemma example_is_new {J : JSON} (feeds : list Feed) (existingFeed : Feed) :
  ListAll readyDB = Ok feeds ->
  existingFeed ∈ feeds ->
  URL existingFeed <> URL exampleFeed /\ ID existingFeed <> "id-1".
Proof.
  intros [= <-] Hin.
  repeat (apply elem_of_cons in Hin as [->|Hin]; [split; discriminate|]).
  now apply elem_of_nil in Hin.
Qed.

(** C1. The code at a URL that is not valid UTF-8: on a new store, two
    calls of [Add] with the URL of the one byte 255 both succeed, with the
    two identifiers drawn, and [ListAll] then has two stored feeds with
    one URL, U+FFFD: the URLs of the listing are not distinct. *)
Theorem invalid_URL_listed_twice :
  listStored (J := replacingJSON) readyDB = Ok [] /\
  Add (J := replacingJSON) "uuid-1" None readyDB invalidURLFeed
  = (invalidDB1, Ok "uuid-1") /\
  Add (J := replacingJSON) "uuid-2" None invalidDB1 invalidURLFeed
  = (invalidDB2, Ok "uuid-2") /\
  AddEach (J := replacingJSON) invalidCalls readyDB = invalidDB2 /\
  exists first second,
    ListAll (J := replacingJSON) invalidDB2
    = Ok (defaultFeedsList ++ [first; second]) /\
    ID first = "uuid-1" /\ ID second = "uuid-2" /\
    URL first = replacementURL /\ URL second = replacementURL /\
    ~ NoDup (URL <$> (defaultFeedsList ++ [first; second])).
Proof.
  split; [vm_compute; reflexivity|]. split; [vm_compute; reflexivity|].
  split; [vm_compute; reflexivity|]. split; [vm_compute; reflexivity|].
  eexists _, _. split; [vm_compute; reflexivity|].
  do 4 (split; [reflexivity|]).
  rewrite fmap_app. intros (_ & _ & Hdup)%NoDup_app.
  apply NoDup_cons in Hdup as [Hnotin _]. apply Hnotin.
  apply list_elem_of_here.
Qed.

(** C2. The code at a URL that is not valid UTF-8: two calls of [Add]
    with the same candidate, whose URL is the one byte 255, succeed with
    two identifiers; the second call writes, and the stored list, empty
    before, has two feeds after. *)
Theorem invalid_URL_two_ids :
  Add (J := replacingJSON) "uuid-1" None readyDB invalidURLFeed
  = (invalidDB1, Ok "uuid-1") /\
  Add (J := replacingJSON) "uuid-2" None invalidDB1 invalidURLFeed
  = (invalidDB2, Ok "uuid-2") /\
  "uuid-2" <> "uuid-1" /\
  invalidDB2 <> invalidDB1 /\
  listStored (J := replacingJSON) readyDB = Ok [] /\
  exists stored,
    listStored (J := replacingJSON) invalidDB2 = Ok stored /\
    length stored = 2.
Proof.
  split; [vm_compute; reflexivity|]. split; [vm_compute; reflexivity|].
  split; [discriminate|]. split.
  - intros Heq.
    assert (listStored (J := replacingJSON) invalidDB2
            = listStored (J := replacingJSON) invalidDB1) as H by now rewrite Heq.
    vm_compute in H. discriminate.
  - split; [vm_compute; reflexivity|].
    eexists. split; [vm_compute; reflexivity|reflexivity].
Qed.

(** C3, witness: a store with one registered feed, and two more calls,
    the second with a URL that is not valid UTF-8. *)
Lemma ListAll_merge_order_witness :
  ListAll (J := replacingJSON) exampleDB
  = Ok (defaultFeedsList ++ [set_ID exampleFeed "id-1"]) /\
  exists storedFeedList,
    listStored (J := replacingJSON) exampleDB = Ok storedFeedList /\
    defaultFeedsList ++ [set_ID exampleFeed "id-1"]
    = defaultFeedsList ++ storedFeedList /\
    exists added,
      listStored (J := replacingJSON)
        (AddEach (J := replacingJSON)
           [mkAddCall "id-5" None otherFeed; mkAddCall "uuid-1" None invalidURLFeed]
           exampleDB)
      = Ok (storedFeedList ++ added) /\
      ListAll (J := replacingJSON)
        (AddEach (J := replacingJSON)
           [mkAddCall "id-5" None otherFeed; mkAddCall "uuid-1" None invalidURLFeed]
           exampleDB)
      = Ok (defaultFeedsList ++ (storedFeedList ++ added)) /\
      added `sublist_of`
        (coerceFeed replacing.replaceInvalid
           <$> (stamped
                  <$> [mkAddCall "id-5" None otherFeed;
                       mkAddCall "uuid-1" None invalidURLFeed])).
Proof.
  split; [vm_compute; reflexivity|].
  apply (@ListAll_merge_order replacingJSON replacing.replaceInvalid
           replacing_unmarshal_marshal replacing_unmarshal_coerced
           replacing_marshal_nonempty).
  vm_compute; reflexivity.
Defined.

(** C6, witness: the example feed, whose [ID] the caller had set, and the
    same feed under another [ID]; no feed of the new store has its URL. *)
Lemma Add_assigns_ID_witness :
  Add (J := replacingJSON) "id-1" None readyDB (set_ID exampleFeed "other")
  = Add (J := replacingJSON) "id-1" None readyDB exampleFeed /\
  Add (J := replacingJSON) "id-1" None readyDB exampleFeed
  = (exampleDB, Ok "id-1") /\
  replacing.replaceInvalid "id-1" = "id-1" /\
  "id-1" = "id-1" /\
  exists stored appended,
    listStored (J := replacingJSON) readyDB = Ok stored /\
    listStored (J := replacingJSON) exampleDB = Ok (stored ++ [appended]) /\
    appended = coerceFeed replacing.replaceInvalid (set_ID exampleFeed "id-1") /\
    ID appended = "id-1".
Proof.
  destruct (@Add_assigns_ID replacingJSON replacing.replaceInvalid
              replacing_unmarshal_marshal replacing_unmarshal_coerced
              replacing_marshal_nonempty
              "id-1" None readyDB exampleFeed) as [Hcaller Hnew].
  split; [apply Hcaller|]. split; [vm_compute; reflexivity|].
  split; [reflexivity|].
  apply (Hnew exampleDB "id-1"); [vm_compute; reflexivity| |reflexivity].
  intros feeds existingFeed Hall Hin.
  exact (proj1 (example_is_new feeds existingFeed Hall Hin)).
Defined.

(** C8, witness: the example feed registered in a new store, where no
    feed has its URL or the new identifier; its fields are ASCII. *)
Lemma Add_GetByID_witness :
  Add (J := replacingJSON) "id-1" None readyDB exampleFeed
  = (exampleDB, Ok "id-1") /\
  replacing.replaceInvalid "id-1" = "id-1" /\
  keptFields replacing.replaceInvalid exampleFeed /\
  (exists feed,
     GetByID (J := replacingJSON) exampleDB "id-1" = Ok feed /\ ID feed = "id-1") /\
  exists feed,
    GetByID (J := replacingJSON) exampleDB "id-1" = Ok feed /\
    ID feed = "id-1" /\
    Title feed = Title exampleFeed /\
    Description feed = Description exampleFeed /\
    URL feed = URL exampleFeed /\
    ImageURL feed = ImageURL exampleFeed /\
    Category feed = Category exampleFeed.
Proof.
  split; [vm_compute; reflexivity|]. split; [reflexivity|].
  assert (keptFields replacing.replaceInvalid exampleFeed) as Hkept
    by (repeat split; reflexivity).
  split; [exact Hkept|].
  destruct (@Add_GetByID replacingJSON replacing.replaceInvalid
              replacing_unmarshal_marshal replacing_unmarshal_coerced
              replacing_marshal_nonempty
              "id-1" None readyDB exampleDB exampleFeed "id-1")
    as [Hfound Hsame]; [vm_compute; reflexivity|reflexivity|].
  split; [exact Hfound|]. apply Hsame; [exact example_is_new|exact Hkept].
Defined.

(** ** The claims on the reference instance *)

(** A value of no bytes is one bolt stores: the database of the next
    counterexamples is a new store after such a [Put]. *)
Lemma emptyValueDB_after_Put :
  bolt.Update None readyDB
    (fun tx => bolt.Bucket_Put tx feedListBucket ∅ allFeedsBucketKey [])
  = (emptyValueDB, None).
Proof. vm_compute; reflexivity. Qed.

(** C4, counterexample: the value under the key is there, it has no
    bytes, [json.Unmarshal] rejects it, and [listStored] returns the empty
    list where the claim has [ErrorStoreFeedListCorrupted]. *)
Lemma listStored_taxonomy_counterexample :
  bolt.Tx_Bucket emptyValueDB feedListBucket = Some {[ allFeedsBucketKey := [] ]} /\
  bolt.Bucket_Get {[ allFeedsBucketKey := [] ]} allFeedsBucketKey = Some [] /\
  failed (json_Unmarshal (JSON := canonicalJSON) []) = true /\
  listStored (J := canonicalJSON) emptyValueDB = Ok [] /\
  listStored (J := canonicalJSON) emptyValueDB <> Err ErrorStoreFeedListCorrupted.
Proof. repeat split; try (vm_compute; reflexivity). discriminate. Qed.

(** C7, counterexample: with a value of no bytes under the key, which
    [json.Unmarshal] rejects, [ListAll] returns the default list, [GetByID]
    finds a default feed and [Add] registers the candidate. *)
Lemma corrupted_store_counterexample :
  bolt.Tx_Bucket emptyValueDB feedListBucket = Some {[ allFeedsBucketKey := [] ]} /\
  bolt.Bucket_Get {[ allFeedsBucketKey := [] ]} allFeedsBucketKey = Some [] /\
  failed (json_Unmarshal (JSON := canonicalJSON) []) = true /\
  ListAll (J := canonicalJSON) emptyValueDB = Ok defaultFeedsList /\
  snd (Add (J := canonicalJSON) "id-1" None emptyValueDB exampleFeed) = Ok "id-1" /\
  failed (GetByID (J := canonicalJSON) emptyValueDB
            "b1031651-411c-40bb-b269-d247794dfd59") = false.
Proof. repeat split; vm_compute; reflexivity. Qed.

(** C7, witness: a value under the key that is not a document. *)
Lemma corrupted_store_fails_witness :
  bolt.Tx_Bucket garbageDB feedListBucket
  = Some {[ allFeedsBucketKey := list_byte_of_string "not json" ]} /\
  bolt.Bucket_Get {[ allFeedsBucketKey := list_byte_of_string "not json" ]}
    allFeedsBucketKey = Some (list_byte_of_string "not json") /\
  list_byte_of_string "not json" <> [] /\
  failed (json_Unmarshal (JSON := canonicalJSON) (list_byte_of_string "not json"))
  = true /\
  ListAll (J := canonicalJSON) garbageDB = Err ErrorStoreFeedListCorrupted /\
  (forall newID commit feed,
     Add (J := canonicalJSON) newID commit garbageDB feed
     = (garbageDB, Err ErrorStoreFeedListCorrupted)) /\
  (forall id,
     GetByID (J := canonicalJSON) garbageDB id = Err ErrorStoreFeedListCorrupted).
Proof.
  split; [vm_compute; reflexivity|]. split; [vm_compute; reflexivity|].
  split; [discriminate|]. split; [vm_compute; reflexivity|].
  apply (@corrupted_store_fails canonicalJSON garbageDB
           {[ allFeedsBucketKey := list_byte_of_string "not json" ]}
           (list_byte_of_string "not json")).
  - vm_compute; reflexivity.
  - vm_compute; reflexivity.
  - discriminate.
  - vm_compute; reflexivity.
Defined.

(** C8, counterexample: a candidate with the URL of the first default
    feed and a title of its own; [Add] succeeds with the identifier of the
    default feed, and [GetByID] of it returns the default feed, whose title
    is not the candidate's. *)
Lemma Add_GetByID_counterexample :
  Add (J := canonicalJSON) "id-1" None readyDB defaultURLFeed
  = (readyDB, Ok "b1031651-411c-40bb-b269-d247794dfd59") /\
  exists feed,
    GetByID (J := canonicalJSON) readyDB "b1031651-411c-40bb-b269-d247794dfd59"
    = Ok feed /\
    Title feed = "BBC News - UK" /\
    Title feed <> Title defaultURLFeed.
Proof.
  split; [vm_compute; reflexivity|].
  eexists. split; [vm_compute; reflexivity|]. split; [reflexivity|discriminate].
Qed.

(** C9, witness: the commit of the write transaction fails. *)
Lemma Add_error_atomic_witness :
  Add (J := canonicalJSON) "id-1" (Some (LibraryError "disk full")) readyDB
    exampleFeed
  = (readyDB, Err (LibraryError "disk full")) /\
  (failed (Err (A := string) (LibraryError "disk full")) = true ->
   readyDB = readyDB) /\
  (readyDB = readyDB \/
   exists bucket existingFeeds rawFeed,
     bolt.Tx_Bucket readyDB feedListBucket = Some bucket /\
     listStored (J := canonicalJSON) readyDB = Ok existingFeeds /\
     json_Marshal (JSON := canonicalJSON)
       (existingFeeds ++ [set_ID exampleFeed "id-1"]) = Ok rawFeed /\
     Err (LibraryError "disk full") = Ok "id-1" /\
     readyDB = <[feedListBucket := <[allFeedsBucketKey := rawFeed]> bucket]> readyDB).
Proof.
  split; [vm_compute; reflexivity|].
  apply (@Add_error_atomic canonicalJSON "id-1" (Some (LibraryError "disk full"))
           readyDB readyDB exampleFeed (Err (LibraryError "disk full"))).
  vm_compute; reflexivity.
Defined.

(** C10, witness: a value of no bytes under the key. *)
Lemma listStored_empty_value_witness :
  bolt.Tx_Bucket emptyValueDB feedListBucket = Some {[ allFeedsBucketKey := [] ]} /\
  bolt.Bucket_Get {[ allFeedsBucketKey := [] ]} allFeedsBucketKey = Some [] /\
  listStored (J := canonicalJSON) emptyValueDB = Ok [] /\
  ListAll (J := canonicalJSON) emptyValueDB = Ok defaultFeedsList.
Proof.
  split; [vm_compute; reflexivity|]. split; [vm_compute; reflexivity|].
  apply (@listStored_empty_value canonicalJSON emptyValueDB
           {[ allFeedsBucketKey := [] ]}).
  - vm_compute; reflexivity.
  - vm_compute; reflexivity.
Defined.

(** * Further properties of the store *)

(** ** Initialisation and the two states of the store *)

Section StoreStates.

Context {J : JSON}.

Lemma Add_bucket (newID : string) (commit : option error) (db db' : bolt.DB)
    (feed : Feed) (r : result string) :
  Add newID commit db feed = (db', r) ->
  (forall name, name <> feedListBucket -> db' !! name = db !! name) /\
  (bolt.Tx_Bucket db feedListBucket = None ->
   bolt.Tx_Bucket db' feedListBucket = None) /\
  (forall bucket,
     bolt.Tx_Bucket db feedListBucket = Some bucket ->
     exists bucket',
       bolt.Tx_Bucket db' feedListBucket = Some bucket' /\
       forall key, key <> allFeedsBucketKey -> bucket' !! key = bucket !! key).
Proof.
  intros [[-> _]|[[-> _]|(b & ex & raw & Hb & _ & _ & _ & _ & ->)]]%Add_cases.
  - repeat split; [easy|]. intros bucket Hb. now exists bucket.
  - repeat split; [easy|]. intros bucket Hb. now exists bucket.
  - unfold bolt.Tx_Bucket in *. repeat split.
    + intros name Hname. now rewrite lookup_insert_ne.
    + congruence.
    + intros bucket Hbucket. rewrite Hb in Hbucket. injection Hbucket as <-.
      exists (<[allFeedsBucketKey := raw]> b). rewrite lookup_insert_eq.
      split; [reflexivity|]. intros key Hkey. now rewrite lookup_insert_ne.
Qed.

Lemma init_cases (db : bolt.DB) :
  (forall err, init (Some err) db = (db, Some err)) /\
  exists db',
    init None db = (db', None) /\
    (forall name, name <> feedListBucket -> db' !! name = db !! name) /\
    (forall bucket,
       bolt.Tx_Bucket db feedListBucket = Some bucket -> db' = db) /\
    (bolt.Tx_Bucket db feedListBucket = None ->
     bolt.Tx_Bucket db' feedListBucket = Some ∅).
Proof.
  unfold init, bolt.Update, bolt.Tx_CreateBucketIfNotExists, bolt.Tx_Bucket.
  change (String.length feedListBucket =? 0)%nat with false. cbv iota.
  destruct (db !! feedListBucket) as [bucket|] eqn:Hb.
  - split; [reflexivity|]. exists db. repeat split; easy.
  - split; [reflexivity|]. eexists. split; [reflexivity|]. repeat split.
    + intros name Hname. now rewrite lookup_insert_ne.
    + easy.
    + intros _. apply lookup_insert_eq.
Qed.

(** X1. [init] returns the fault of the commit, if there is one, as it
    is, and then the database is unchanged.  Without a fault it succeeds:
    the bucket exists afterwards, an existing bucket keeps its content
    (the database is unchanged), a missing one is created empty, and no
    other bucket is touched. *)
Theorem init_outcome (db : bolt.DB) :
  (forall err, init (Some err) db = (db, Some err)) /\
  exists db',
    init None db = (db', None) /\
    (forall name, name <> feedListBucket -> db' !! name = db !! name) /\
    (forall bucket,
       bolt.Tx_Bucket db feedListBucket = Some bucket -> db' = db) /\
    (bolt.Tx_Bucket db feedListBucket = None ->
     bolt.Tx_Bucket db' feedListBucket = Some ∅).
Proof. apply init_cases. Qed.

(** X2. A store made by [NewFeedListStore] on a database without the
    bucket lists exactly the default feeds, and [GetByID] fails with
    [ErrorFeedNotFound] for every identifier that no default feed has. *)
Theorem new_store_lists_defaults (db : bolt.DB) :
  bolt.Tx_Bucket db feedListBucket = None ->
  snd (NewFeedListStore None db) = None /\
  listStored (fst (NewFeedListStore None db)) = Ok [] /\
  ListAll (fst (NewFeedListStore None db)) = Ok defaultFeedsList /\
  forall id,
    (forall feed, feed ∈ defaultFeedsList -> ID feed <> id) ->
    GetByID (fst (NewFeedListStore None db)) id = Err ErrorFeedNotFound.
Proof.
  intros Hnone. unfold NewFeedListStore.
  destruct (init_cases db) as [_ (db' & Hinit & _ & _ & Hnew)].
  rewrite Hinit. cbn [fst snd]. specialize (Hnew Hnone).
  assert (listStored db' = Ok []) as Hl.
  { unfold listStored, bolt.View, bolt.Bucket_Get. rewrite Hnew.
    now rewrite lookup_empty. }
  assert (ListAll db' = Ok defaultFeedsList) as Hall
    by (unfold ListAll; now rewrite Hl).
  repeat split; try assumption.
  intros id Hid. unfold GetByID. rewrite Hall.
  destruct (find _ defaultFeedsList) as [feed|] eqn:Hfind; [|reflexivity].
  apply find_some in Hfind as [Hin%list_elem_of_In Heq%String.eqb_eq].
  now destruct (Hid feed Hin).
Qed.

(** X3. Without the bucket every operation fails with
    [ErrorUnconfiguredBucket], and [Add] writes nothing. *)
Theorem uninitialized_store_fails (db : bolt.DB) :
  bolt.Tx_Bucket db feedListBucket = None ->
  ListAll db = Err ErrorUnconfiguredBucket /\
  (forall id, GetByID db id = Err ErrorUnconfiguredBucket) /\
  (forall newID commit feed,
     Add newID commit db feed = (db, Err ErrorUnconfiguredBucket)).
Proof.
  intros Hnone.
  assert (listStored db = Err ErrorUnconfiguredBucket) as Hl
    by (unfold listStored, bolt.View; now rewrite Hnone).
  assert (ListAll db = Err ErrorUnconfiguredBucket) as Hall
    by (unfold ListAll; now rewrite Hl).
  repeat split; [assumption| |].
  - intros id. unfold GetByID. now rewrite Hall.
  - intros newID commit feed. unfold Add. now rewrite Hl.
Qed.

(** X4. The store does not go back to the state without a bucket: once
    the bucket exists it exists after every sequence of calls of [Add],
    and no read after them fails with [ErrorUnconfiguredBucket]. *)
Theorem AddEach_keeps_bucket (calls : list AddCall) (db : bolt.DB) :
  is_Some (bolt.Tx_Bucket db feedListBucket) ->
  is_Some (bolt.Tx_Bucket (AddEach calls db) feedListBucket) /\
  listStored (AddEach calls db) <> Err ErrorUnconfiguredBucket /\
  ListAll (AddEach calls db) <> Err ErrorUnconfiguredBucket.
Proof.
  intros Hsome.
  assert (is_Some (bolt.Tx_Bucket (AddEach calls db) feedListBucket)) as H.
  { revert db Hsome. induction calls as [|c calls IH]; intros db Hsome;
      [assumption|].
    cbn [AddEach]. apply IH.
    destruct (Add (call_uuid c) (call_commit c) db (call_feed c))
      as [db1 r] eqn:Hadd.
    destruct Hsome as [bucket Hb].
    destruct (Add_bucket _ _ _ _ _ _ Hadd) as (_ & _ & Hkeep).
    destruct (Hkeep bucket Hb) as (bucket' & Hb' & _). now exists bucket'. }
  split; [assumption|]. destruct H as [bucket Hb].
  assert (listStored (AddEach calls db) <> Err ErrorUnconfiguredBucket) as Hl.
  { unfold listStored, bolt.View. rewrite Hb.
    destruct (len _ =? 0)%nat; [discriminate|].
    now destruct (json_Unmarshal _). }
  split; [assumption|]. rewrite ListAll_listStored.
  destruct (listStored (AddEach calls db)); congruence.
Qed.

(** X5. [Add] touches nothing but the value under the key ["all"] of the
    bucket ["feedlist"]: every other bucket and every other key of that
    bucket is as it was, and [Add] neither creates nor deletes the bucket. *)
Theorem Add_frame (newID : string) (commit : option error) (db db' : bolt.DB)
    (feed : Feed) (r : result string) :
  Add newID commit db feed = (db', r) ->
  (forall name, name <> feedListBucket -> db' !! name = db !! name) /\
  (bolt.Tx_Bucket db feedListBucket = None ->
   bolt.Tx_Bucket db' feedListBucket = None) /\
  (forall bucket,
     bolt.Tx_Bucket db feedListBucket = Some bucket ->
     exists bucket',
       bolt.Tx_Bucket db' feedListBucket = Some bucket' /\
       forall key, key <> allFeedsBucketKey -> bucket' !! key = bucket !! key).
Proof. apply Add_bucket. Qed.

End StoreStates.

(** ** Lookups, growth and errors *)

Section StoreReads.

Context {J : JSON}.

Lemma find_default_ID (feed : Feed) :
  feed ∈ defaultFeedsList ->
  find (fun other => String.eqb (ID other) (ID feed)) defaultFeedsList = Some feed.
Proof.
  intros Hin.
  repeat (apply elem_of_cons in Hin as [->|Hin]; [reflexivity|]).
  now apply elem_of_nil in Hin.
Qed.

(** X6. The default feeds come first in every lookup: whenever the
    stored list can be read, [GetByID] of the identifier of a default feed
    returns that default feed, whatever is stored. *)
Theorem GetByID_default (db : bolt.DB) (stored : list Feed) (feed : Feed) :
  listStored db = Ok stored ->
  feed ∈ defaultFeedsList ->
  GetByID db (ID feed) = Ok feed.
Proof.
  intros Hl Hin. unfold GetByID. rewrite ListAll_listStored, Hl, find_app.
  now rewrite (find_default_ID feed Hin).
Qed.

(** X7. Which error [Add] returns, and when.  [Add] fails with [err]
    exactly when the read fails with [err], or when no feed has the URL and
    [json.Marshal] fails with [err], or the document is larger than bolt
    takes ([err] is [ErrValueTooLarge]), or the commit fails with [err];
    and then the database is unchanged. *)
Theorem Add_fails_iff (newID : string) (commit : option error)
    (db db' : bolt.DB) (feed : Feed) (err : error) :
  Add newID commit db feed = (db', Err err) <->
  db' = db /\
  (listStored db = Err err \/
   exists existingFeeds,
     listStored db = Ok existingFeeds /\
     find (hasURL (URL feed)) (existingFeeds ++ defaultFeedsList) = None /\
     (json_Marshal (existingFeeds ++ [set_ID feed newID]) = Err err \/
      exists rawFeed,
        json_Marshal (existingFeeds ++ [set_ID feed newID]) = Ok rawFeed /\
        if (bolt.MaxValueSize <? Z.of_nat (length rawFeed))%Z
        then err = bolt.ErrValueTooLarge
        else commit = Some err)).
Proof.
  unfold Add.
  destruct (listStored db) as [existing|e] eqn:Hl.
  2:{ split.
      - intros [= <- <-]. split; [reflexivity|now left].
      - intros [-> [[= ->]|(ex & [=] & _)]]. reflexivity. }
  change (fun existingFeed : Feed =>
            String.eqb (URL existingFeed) (URL (set_ID feed newID)))
    with (hasURL (URL feed)).
  destruct (find (hasURL (URL feed)) existing) as [e|] eqn:Hstored.
  { split; [discriminate|]. intros [_ [[=]|(ex & [= <-] & Hnone & _)]].
    now rewrite find_app, Hstored in Hnone. }
  destruct (find (hasURL (URL feed)) defaultFeedsList) as [e|] eqn:Hdefault.
  { split; [discriminate|]. intros [_ [[=]|(ex & [= <-] & Hnone & _)]].
    now rewrite find_app, Hstored, Hdefault in Hnone. }
  assert (find (hasURL (URL feed)) (existing ++ defaultFeedsList) = None)
    as Hnone by now rewrite find_app, Hstored.
  destruct (json_Marshal _) as [raw|e] eqn:Hraw.
  2:{ split.
      - intros [= <- <-]. split; [reflexivity|]. right. exists existing.
        split; [reflexivity|]. split; [assumption|]. now left.
      - intros [-> [[=]|(ex & [= <-] & _ & [Hm|(raw & Hm & _)])]];
          rewrite Hraw in Hm; [now injection Hm as ->|discriminate]. }
  unfold bolt.Update, bolt.Bucket_Put, bolt.Tx_Bucket.
  assert (exists bucket, db !! feedListBucket = Some bucket) as [bucket Hb].
  { unfold listStored, bolt.View, bolt.Tx_Bucket in Hl.
    destruct (db !! feedListBucket) as [bucket|]; [now exists bucket|discriminate]. }
  rewrite Hb. cbn [String.length allFeedsBucketKey Nat.eqb].
  change (bolt.MaxKeySize <? Z.of_nat 3)%Z with false. cbv iota.
  destruct (bolt.MaxValueSize <? Z.of_nat (length raw))%Z eqn:Hsize.
  { split.
    - intros [= <- <-]. split; [reflexivity|]. right. exists existing.
      split; [reflexivity|]. split; [assumption|]. right. exists raw.
      now rewrite Hsize.
    - intros [-> [[=]|(ex & [= <-] & _ & [Hm|(raw' & Hm & Herr)])]];
        rewrite Hraw in Hm; [discriminate|]. injection Hm as <-.
      rewrite Hsize in Herr. now subst. }
  destruct commit as [e|].
  - split.
    + intros [= <- <-]. split; [reflexivity|]. right. exists existing.
      split; [reflexivity|]. split; [assumption|]. right. exists raw.
      now rewrite Hsize.
    + intros [-> [[=]|(ex & [= <-] & _ & [Hm|(raw' & Hm & Herr)])]];
        rewrite Hraw in Hm; [discriminate|]. injection Hm as <-.
      rewrite Hsize in Herr. now injection Herr as ->.
  - split; [discriminate|].
    intros [_ [[=]|(ex & [= <-] & _ & [Hm|(raw' & Hm & Herr)])]];
      rewrite Hraw in Hm; [discriminate|]. injection Hm as <-.
    now rewrite Hsize in Herr.
Qed.

End StoreReads.

(** ** The store over time *)

Section StoreGrowth.

Context {J : JSON}.

Variable json_coerce : string -> string.

Hypothesis unmarshal_marshal :
  forall (v : list Feed) (data : list byte),
    json_Marshal v = Ok data ->
    json_Unmarshal data = Ok (coerceFeed json_coerce <$> v).

Hypothesis unmarshal_coerced :
  forall (data : list byte) (v : list Feed),
    json_Unmarshal data = Ok v -> coerceFeed json_coerce <$> v = v.

Hypothesis marshal_nonempty :
  forall (v : list Feed) (data : list byte),
    json_Marshal v = Ok data -> data <> [].

(** What [Add] does to the listing: nothing, or the candidate under its
    new identifier, as JSON keeps it, is appended. *)
Lemma Add_ListAll (newID : string) (commit : option error) (db db' : bolt.DB)
    (feed : Feed) (r : result string) (feeds : list Feed) :
  ListAll db = Ok feeds ->
  Add newID commit db feed = (db', r) ->
  (ListAll db' = Ok feeds /\
   (failed r = true \/
    exists existingFeed,
      existingFeed ∈ feeds /\ URL existingFeed = URL feed /\
      r = Ok (ID existingFeed))) \/
  (ListAll db' = Ok (feeds ++ [coerceFeed json_coerce (set_ID feed newID)]) /\
   r = Ok newID /\
   forall existingFeed, existingFeed ∈ feeds -> URL existingFeed <> URL feed).
Proof.
  intros Hall
    [[-> Hf]|[[-> (ex & e & Hl & Hfind & ->)]|(ex & Hl & Hnone & -> & Hl')]]
    %(Add_stored json_coerce unmarshal_marshal unmarshal_coerced marshal_nonempty).
  - left. split; [assumption|now left].
  - left. split; [assumption|]. right. exists e.
    rewrite ListAll_listStored, Hl in Hall.
    assert (feeds = defaultFeedsList ++ ex) as -> by congruence.
    apply find_some in Hfind as [Hin%list_elem_of_In Hurl%String.eqb_eq].
    split; [|split; [assumption|reflexivity]].
    apply elem_of_app. apply elem_of_app in Hin. tauto.
  - right. rewrite ListAll_listStored, Hl in Hall.
    assert (feeds = defaultFeedsList ++ ex) as -> by congruence.
    rewrite ListAll_listStored, Hl', app_assoc.
    split; [reflexivity|]. split; [reflexivity|].
    intros e Hin. rewrite hasURL_none in Hnone. apply Hnone.
    apply elem_of_app. apply elem_of_app in Hin. tauto.
Qed.

(** X8. [Add] never changes what a lookup finds: a feed that [GetByID]
    returns before a call of [Add] is returned for the same identifier
    after it, whatever the call does. *)
Theorem GetByID_stable (newID : string) (commit : option error)
    (db db' : bolt.DB) (feed : Feed) (r : result string)
    (id : string) (found : Feed) :
  GetByID db id = Ok found ->
  Add newID commit db feed = (db', r) ->
  GetByID db' id = Ok found.
Proof.
  intros Hget Hadd. unfold GetByID in *.
  destruct (ListAll db) as [feeds|e] eqn:Hall; [|discriminate].
  destruct (Add_ListAll _ _ _ _ _ _ _ Hall Hadd) as [[-> _]|[-> _]];
    [assumption|].
  rewrite find_app. now destruct (find _ feeds).
Qed.

(** X9. The listing only grows, at its end and by at most one feed:
    after [Add] it is what it was, or what it was followed by the
    candidate under the new identifier as JSON keeps it, and this only
    when [Add] returns the new identifier and no feed had the URL. *)
Theorem ListAll_grows (newID : string) (commit : option error)
    (db db' : bolt.DB) (feed : Feed) (r : result string) (feeds : list Feed) :
  ListAll db = Ok feeds ->
  Add newID commit db feed = (db', r) ->
  ListAll db' = Ok feeds \/
  (ListAll db' = Ok (feeds ++ [coerceFeed json_coerce (set_ID feed newID)]) /\
   r = Ok newID /\
   forall existingFeed, existingFeed ∈ feeds -> URL existingFeed <> URL feed).
Proof.
  intros Hall Hadd.
  destruct (Add_ListAll _ _ _ _ _ _ _ Hall Hadd) as [[H _]|H];
    [now left|now right].
Qed.

(** After a successful [Add] of a candidate whose URL JSON keeps, with
    an identifier drawn that JSON keeps, a feed with the returned
    identifier and the candidate's URL is listed. *)
Lemma Add_listed (newID : string) (commit : option error)
    (db db' : bolt.DB) (feed : Feed) (id : string) (feeds : list Feed) :
  ListAll db = Ok feeds ->
  json_coerce newID = newID ->
  json_coerce (URL feed) = URL feed ->
  Add newID commit db feed = (db', Ok id) ->
  exists feeds' listed,
    ListAll db' = Ok feeds' /\
    (feeds' = feeds \/
     feeds' = feeds ++ [coerceFeed json_coerce (set_ID feed newID)]) /\
    listed ∈ feeds' /\ ID listed = id /\ URL listed = URL feed.
Proof.
  intros Hall HnewID Hurl Hadd.
  destruct (Add_ListAll _ _ _ _ _ _ _ Hall Hadd)
    as [[Hall' [[=]|(e & Hin & He & [= ->])]]|(Hall' & [= ->] & _)].
  - exists feeds, e. split; [assumption|]. split; [now left|]. now split.
  - exists (feeds ++ [coerceFeed json_coerce (set_ID feed newID)]),
      (coerceFeed json_coerce (set_ID feed newID)).
    split; [assumption|]. split; [now right|]. split; [|now split].
    apply elem_of_app. right. apply list_elem_of_here.
Qed.

(** X10. The identifier a successful [Add] returns is that of a listed
    feed with the candidate's URL, for a URL and an identifier drawn that
    JSON keeps. *)
Theorem Add_returns_listed (newID : string) (commit : option error)
    (db db' : bolt.DB) (feed : Feed) (id : string) :
  json_coerce newID = newID ->
  json_coerce (URL feed) = URL feed ->
  Add newID commit db feed = (db', Ok id) ->
  exists feeds listed,
    ListAll db' = Ok feeds /\
    listed ∈ feeds /\ ID listed = id /\ URL listed = URL feed.
Proof.
  intros HnewID Hurl Hadd.
  assert (exists feeds, ListAll db = Ok feeds) as [feeds Hall].
  { rewrite ListAll_listStored. unfold Add in Hadd.
    destruct (listStored db) as [l|e]; [now eexists|discriminate]. }
  destruct (Add_listed _ _ _ _ _ _ _ Hall HnewID Hurl Hadd)
    as (feeds' & listed & Hall' & _ & H).
  now exists feeds', listed.
Qed.

Lemma Add_IDs_unique (newID : string) (commit : option error)
    (db db' : bolt.DB) (feed : Feed) (r : result string) (feeds : list Feed) :
  ListAll db = Ok feeds ->
  NoDup (ID <$> feeds) ->
  newID ∉ (ID <$> feeds) ->
  json_coerce newID = newID ->
  Add newID commit db feed = (db', r) ->
  exists feeds', ListAll db' = Ok feeds' /\ NoDup (ID <$> feeds').
Proof.
  intros Hall Hnodup Hfresh HnewID Hadd.
  destruct (Add_ListAll _ _ _ _ _ _ _ Hall Hadd) as [[Hall' _]|(Hall' & _)].
  - now exists feeds.
  - exists (feeds ++ [coerceFeed json_coerce (set_ID feed newID)]).
    split; [assumption|].
    rewrite fmap_app. apply NoDup_app. split; [assumption|]. split.
    + intros id Hin Hid%list_elem_of_singleton. cbn in Hid.
      rewrite HnewID in Hid. subst id. now destruct Hfresh.
    + apply NoDup_singleton.
Qed.

(** X11. Identifiers stay unique as long as [uuid.NewString()] draws an
    unused one that JSON keeps: if no two listed feeds share an
    identifier and the drawn one is not listed, no two feeds share one
    after [Add]. *)
Theorem Add_keeps_IDs_unique (newID : string) (commit : option error)
    (db db' : bolt.DB) (feed : Feed) (r : result string) (feeds : list Feed) :
  ListAll db = Ok feeds ->
  NoDup (ID <$> feeds) ->
  newID ∉ (ID <$> feeds) ->
  json_coerce newID = newID ->
  Add newID commit db feed = (db', r) ->
  exists feeds', ListAll db' = Ok feeds' /\ NoDup (ID <$> feeds').
Proof. apply Add_IDs_unique. Qed.

(** X12. With unique identifiers the round trip holds for a known URL
    as well: after a successful [Add] of a candidate whose URL JSON
    keeps, [GetByID] of the returned identifier returns a feed with that
    identifier and the candidate's URL. *)
Theorem Add_GetByID_URL (newID : string) (commit : option error)
    (db db' : bolt.DB) (feed : Feed) (id : string) (feeds : list Feed) :
  ListAll db = Ok feeds ->
  NoDup (ID <$> feeds) ->
  newID ∉ (ID <$> feeds) ->
  json_coerce newID = newID ->
  json_coerce (URL feed) = URL feed ->
  Add newID commit db feed = (db', Ok id) ->
  exists found,
    GetByID db' id = Ok found /\ ID found = id /\ URL found = URL feed.
Proof.
  intros Hall Hnodup Hfresh HnewID Hurl Hadd.
  destruct (Add_IDs_unique _ _ _ _ _ _ _ Hall Hnodup Hfresh HnewID Hadd)
    as (feeds1 & Hall1 & Hnodup1).
  destruct (Add_listed _ _ _ _ _ _ _ Hall HnewID Hurl Hadd)
    as (feeds' & listed & Hall' & _ & Hin & Hid & Hlisted).
  rewrite Hall1 in Hall'. injection Hall' as ->.
  subst id.
  destruct (GetByID_member db' feeds' listed Hall1 Hin) as (found & Hget & Hid).
  exists found. split; [assumption|]. split; [assumption|].
  assert (found ∈ feeds') as Hfound.
  { unfold GetByID in Hget. rewrite Hall1 in Hget.
    destruct (find _ feeds') as [g|] eqn:Hfind; [|discriminate].
    injection Hget as ->. now apply find_some in Hfind as [?%list_elem_of_In _]. }
  now rewrite (NoDup_fmap_elem ID feeds' found listed Hnodup1 Hfound Hin Hid).
Qed.

(** X13. Insertion order: after any sequence of calls of [Add] the
    listing is the one before, followed by candidates of the calls, under
    the identifiers drawn for them and as JSON keeps them, in the order
    of the calls. *)
Theorem AddEach_insertion_order (calls : list AddCall) (db : bolt.DB)
    (feeds : list Feed) :
  ListAll db = Ok feeds ->
  exists added,
    ListAll (AddEach calls db) = Ok (feeds ++ added) /\
    added `sublist_of` (coerceFeed json_coerce <$> (stamped <$> calls)).
Proof.
  revert db feeds. induction calls as [|c calls IH]; intros db feeds Hall.
  - exists []. rewrite app_nil_r. split; [assumption|reflexivity].
  - cbn [AddEach].
    destruct (Add (call_uuid c) (call_commit c) db (call_feed c))
      as [db1 r] eqn:Hadd. cbn [fst].
    change (coerceFeed json_coerce <$> (stamped <$> c :: calls))
      with ([coerceFeed json_coerce (stamped c)]
            ++ (coerceFeed json_coerce <$> (stamped <$> calls))).
    destruct (Add_ListAll _ _ _ _ _ _ _ Hall Hadd) as [[Hall1 _]|(Hall1 & _)].
    + destruct (IH db1 feeds Hall1) as (added & Hall2 & Hsub).
      exists added. split; [assumption|]. now apply sublist_inserts_l.
    + destruct (IH db1 _ Hall1) as (added & Hall2 & Hsub).
      exists ([coerceFeed json_coerce (stamped c)] ++ added). rewrite app_assoc.
      split; [assumption|]. now apply sublist_app.
Qed.

End StoreGrowth.

(** * The HTTP boundary *)

Lemma strings_Split_nonempty (s : string) (sep : ascii) :
  strings_Split s sep <> [].
Proof.
  destruct s as [|c s]; cbn [strings_Split]; [discriminate|].
  destruct (Ascii.eqb c sep); [discriminate|].
  now destruct (strings_Split s sep).
Qed.

Section BoundaryProperties.

Variable mime_ParseMediaType : string -> option string.
Variable fmt_Sprintf : string -> string.
Variable Rsp : Type.
Variable json_Marshal : Rsp -> result (list byte).

#[local] Abbreviation apiMiddleware := (app.apiMiddleware mime_ParseMediaType).
#[local] Abbreviation apiHandler := (app.apiHandler fmt_Sprintf Rsp json_Marshal).
#[local] Abbreviation Fprintf := (app.Fprintf fmt_Sprintf).

(** A part of the Content-Type that the loop passes over: it parses, to
    a media type other than JSON. *)
#[local] Abbreviation passed := (fun v : string =>
  exists t, mime_ParseMediaType v = Some t /\ t <> "application/json").

Lemma apiMiddleware_range_passed (next : http.Handler) (contentType : string)
    (before rest : list string) (w : http.ResponseWriter) (r : http.Request) :
  Forall passed before ->
  app.apiMiddleware_range mime_ParseMediaType next contentType (before ++ rest) w r
  = app.apiMiddleware_range mime_ParseMediaType next contentType rest w r.
Proof.
  induction 1 as [|v before (t & Hv & Ht) _ IH]; [reflexivity|].
  cbn [app app.apiMiddleware_range]. rewrite Hv.
  apply String.eqb_neq in Ht. now rewrite Ht.
Qed.

Lemma apiMiddleware_cases (next : http.Handler) (w : http.ResponseWriter)
    (r : http.Request) :
  let contentType := http.Header_Get (http.Header r) "Content-Type" in
  let w' := http.Header_Set w "Content-Type" "application/json;charset=utf8" in
  (exists before v after,
     strings_Split contentType "," = before ++ v :: after /\
     Forall passed before /\
     mime_ParseMediaType v = Some "application/json" /\
     apiMiddleware next w r = next w' r) \/
  (exists before v after,
     strings_Split contentType "," = before ++ v :: after /\
     Forall passed before /\
     mime_ParseMediaType v = None /\
     apiMiddleware next w r
     = http.Write (http.WriteHeader w' http.StatusUnsupportedMediaType)
         (app.notParseable v)) \/
  (Forall passed (strings_Split contentType ",") /\
   apiMiddleware next w r
   = http.Write (http.WriteHeader w' http.StatusUnsupportedMediaType)
       (app.notSupported contentType)).
Proof.
  intros contentType w'. unfold app.apiMiddleware. fold contentType. fold w'.
  generalize (strings_Split contentType ",") as parts.
  assert (forall parts done,
    Forall passed done ->
    (exists before v after,
       done ++ parts = before ++ v :: after /\ Forall passed before /\
       mime_ParseMediaType v = Some "application/json" /\
       app.apiMiddleware_range mime_ParseMediaType next contentType parts w' r
       = next w' r) \/
    (exists before v after,
       done ++ parts = before ++ v :: after /\ Forall passed before /\
       mime_ParseMediaType v = None /\
       app.apiMiddleware_range mime_ParseMediaType next contentType parts w' r
       = http.Write (http.WriteHeader w' http.StatusUnsupportedMediaType)
           (app.notParseable v)) \/
    (Forall passed (done ++ parts) /\
     app.apiMiddleware_range mime_ParseMediaType next contentType parts w' r
     = http.Write (http.WriteHeader w' http.StatusUnsupportedMediaType)
         (app.notSupported contentType))) as Hloop.
  { induction parts as [|v parts IH]; intros done Hdone.
    - right; right. rewrite app_nil_r. now split.
    - cbn [app.apiMiddleware_range].
      destruct (mime_ParseMediaType v) as [t|] eqn:Hv.
      + destruct (String.eqb t "application/json") eqn:Ht.
        * apply String.eqb_eq in Ht. subst t. left.
          now exists done, v, parts.
        * apply String.eqb_neq in Ht.
          replace (done ++ v :: parts) with ((done ++ [v]) ++ parts)
            by now rewrite <- app_assoc.
          apply IH. apply Forall_app. split; [assumption|].
          constructor; [|constructor]. now exists t.
      + right; left. now exists done, v, parts. }
  intros parts. apply (Hloop parts []). constructor.
Qed.

(** X14. [apiMiddleware] decides on the first part of the Content-Type
    that is JSON or does not parse.  It has set the Content-Type of the
    response before; then either it hands the request to the next handler,
    once, when that part is [application/json]; or it answers 415 naming
    the part that does not parse; or, every part being another media type,
    it answers 415 naming the whole Content-Type. *)
Theorem apiMiddleware_first_match (next : http.Handler)
    (w : http.ResponseWriter) (r : http.Request) :
  let contentType := http.Header_Get (http.Header r) "Content-Type" in
  let w' := http.Header_Set w "Content-Type" "application/json;charset=utf8" in
  (exists before v after,
     strings_Split contentType "," = before ++ v :: after /\
     Forall passed before /\
     mime_ParseMediaType v = Some "application/json" /\
     apiMiddleware next w r = next w' r) \/
  (exists before v after,
     strings_Split contentType "," = before ++ v :: after /\
     Forall passed before /\
     mime_ParseMediaType v = None /\
     apiMiddleware next w r
     = http.Write (http.WriteHeader w' http.StatusUnsupportedMediaType)
         (app.notParseable v)) \/
  (Forall passed (strings_Split contentType ",") /\
   apiMiddleware next w r
   = http.Write (http.WriteHeader w' http.StatusUnsupportedMediaType)
       (app.notSupported contentType)).
Proof. apply apiMiddleware_cases. Qed.

(** X15. A request none of whose Content-Type parts is
    [application/json] never reaches the next handler: on a writer that has
    sent nothing the answer is status 415 with the JSON Content-Type, and
    it is the same whatever the next handler is. *)
Theorem apiMiddleware_rejects (next : http.Handler)
    (w : http.ResponseWriter) (r : http.Request) :
  (forall v,
     v ∈ strings_Split (http.Header_Get (http.Header r) "Content-Type") "," ->
     mime_ParseMediaType v <> Some "application/json") ->
  http.wroteHeader w = None ->
  http.wroteHeader (apiMiddleware next w r)
  = Some (http.StatusUnsupportedMediaType,
          <["Content-Type" := "application/json;charset=utf8"]> (http.header w)) /\
  forall next', apiMiddleware next' w r = apiMiddleware next w r.
Proof.
  intros Hnone Hfresh.
  assert (Hsent : forall msg,
    http.wroteHeader
      (http.Write
         (http.WriteHeader
            (http.Header_Set w "Content-Type" "application/json;charset=utf8")
            http.StatusUnsupportedMediaType) msg)
    = Some (http.StatusUnsupportedMediaType,
            <["Content-Type" := "application/json;charset=utf8"]> (http.header w))).
  { intros msg. unfold http.Write, http.WriteHeader, http.Header_Set.
    cbn. rewrite Hfresh. reflexivity. }
  destruct (apiMiddleware_cases next w r)
    as [(before & v & after & Hsplit & _ & Hv & _)
       |[(before & v & after & Hsplit & Hbefore & Hv & Heq)|[Hall Heq]]].
  - destruct (Hnone v); [|assumption]. rewrite Hsplit.
    apply elem_of_app. right. apply list_elem_of_here.
  - split; [rewrite Heq; apply Hsent|]. intros next'. rewrite Heq.
    unfold app.apiMiddleware. rewrite Hsplit.
    rewrite apiMiddleware_range_passed by assumption.
    cbn [app.apiMiddleware_range]. now rewrite Hv.
  - split; [rewrite Heq; apply Hsent|]. intros next'. rewrite Heq.
    unfold app.apiMiddleware.
    rewrite <- (app_nil_r (strings_Split _ _)).
    now rewrite apiMiddleware_range_passed by assumption.
Qed.

(** X16. A request without a Content-Type is answered 415, given that
    [mime.ParseMediaType] rejects the empty string: the loop runs once, on
    the empty part, and the answer names an empty media type. *)
Theorem apiMiddleware_no_content_type (next : http.Handler)
    (w : http.ResponseWriter) (r : http.Request) :
  mime_ParseMediaType "" = None ->
  http.Header r !! "Content-Type" = None ->
  apiMiddleware next w r
  = http.Write
      (http.WriteHeader
         (http.Header_Set w "Content-Type" "application/json;charset=utf8")
         http.StatusUnsupportedMediaType)
      (app.notParseable "").
Proof.
  intros Hparse Hheader. unfold app.apiMiddleware, http.Header_Get.
  rewrite Hheader. cbn [strings_Split app.apiMiddleware_range].
  now rewrite Hparse.
Qed.

(** What [apiHandler] writes once the body is read: the status, if it
    sets one, and the text. *)
Lemma apiHandler_read (Handle : list byte -> gmap string string -> app.reply Rsp)
    (w : http.ResponseWriter) (r : http.Request) :
  http.fault (http.body r) = None ->
    apiHandler Handle w r
    = match Handle (http.data (http.body r)) (app.routeParams w) with
      | app.Failure (app.HttpError code msg) =>
          Fprintf (http.WriteHeader w code) (app.jsonError (app.HttpError code msg))
      | app.Failure (app.PlainError err) =>
          Fprintf (http.WriteHeader w http.StatusInternalServerError)
            (app.jsonError (app.PlainError err))
      | app.Reply rsp =>
          match json_Marshal rsp with
          | Err err => Fprintf w (app.jsonError (app.PlainError err))
          | Ok jsonRsp => Fprintf w (string_of_list_byte jsonRsp)
          end
      end.
Proof.
  intros Hfault. unfold app.apiHandler, ioutil_ReadAll. rewrite Hfault.
  now destruct (Handle _ _) as [rsp|[code msg|err]].
Qed.

Lemma WriteHeader_sent (w : http.ResponseWriter) (code : nat) :
  http.wroteHeader (http.WriteHeader w code)
  = match http.wroteHeader w with
    | Some sent => Some sent
    | None => Some (code, http.header w)
    end /\
  http.header (http.WriteHeader w code) = http.header w.
Proof.
  unfold http.WriteHeader.
  destruct (http.wroteHeader w) eqn:Hsent; cbn; rewrite ?Hsent; now split.
Qed.

Lemma Fprintf_sent (w : http.ResponseWriter) (format : string) :
  http.wroteHeader (Fprintf w format)
  = match http.wroteHeader w with
    | Some sent => Some sent
    | None => Some (http.StatusOK, http.header w)
    end /\
  http.header (Fprintf w format) = http.header w.
Proof.
  unfold app.Fprintf, http.Write, http.WriteHeader.
  destruct (http.wroteHeader w) eqn:Hsent; cbn; rewrite ?Hsent; now split.
Qed.

(** [apiHandler] always sends a status, with the header map of the
    writer as it was given; the status is one [WriteHeader] takes when
    the codes of the handler's [HttpError]s are. *)
Lemma apiHandler_sends
    (Handle : list byte -> gmap string string -> app.reply Rsp)
    (w : http.ResponseWriter) (r : http.Request) :
  http.wroteHeader w = None ->
  (forall b ps code msg,
     Handle b ps = app.Failure (app.HttpError code msg) ->
     http.validCode code = true) ->
  exists code,
    http.wroteHeader (apiHandler Handle w r) = Some (code, http.header w) /\
    http.validCode code = true.
Proof.
  intros Hfresh Hvalid. unfold app.apiHandler, ioutil_ReadAll.
  destruct (http.fault (http.body r)) as [e|];
    destruct (Handle _ _) as [rsp|[code msg|e']] eqn:Hreply;
    try destruct (json_Marshal rsp);
    rewrite ?(proj1 (Fprintf_sent _ _)), ?(proj1 (WriteHeader_sent _ _)),
      ?(proj1 (Fprintf_sent _ _)), ?(proj2 (Fprintf_sent _ _)),
      ?(proj2 (WriteHeader_sent _ _)), ?Hfresh;
    eauto.
Qed.

(** X17. The status [apiHandler] sends on a writer that has sent
    nothing, when the body can be read: the code of the error if the
    handler fails with an [HttpError], a code [WriteHeader] takes; 500 if
    it fails with another error; and 200 if it succeeds, also when
    [json.Marshal] then fails on the response.  The header sent is the
    header map of the writer, to which [apiHandler] adds nothing. *)
Theorem apiHandler_status
    (Handle : list byte -> gmap string string -> app.reply Rsp)
    (w : http.ResponseWriter) (r : http.Request) :
  http.wroteHeader w = None ->
  http.fault (http.body r) = None ->
  (forall code msg,
     Handle (http.data (http.body r)) (app.routeParams w)
     = app.Failure (app.HttpError code msg) ->
     http.validCode code = true) ->
  exists code,
    http.wroteHeader (apiHandler Handle w r) = Some (code, http.header w) /\
    http.validCode code = true /\
    code = match Handle (http.data (http.body r)) (app.routeParams w) with
           | app.Failure (app.HttpError code _) => code
           | app.Failure (app.PlainError _) => http.StatusInternalServerError
           | app.Reply _ => http.StatusOK
           end /\
    http.header (apiHandler Handle w r) = http.header w.
Proof.
  intros Hfresh Hfault Hvalid.
  rewrite (apiHandler_read Handle w r Hfault).
  destruct (Handle _ _) as [rsp|[code msg|err]].
  - exists http.StatusOK.
    destruct (json_Marshal rsp); rewrite !(proj1 (Fprintf_sent _ _)),
      !(proj2 (Fprintf_sent _ _)), Hfresh; now repeat split.
  - exists code. rewrite (proj1 (Fprintf_sent _ _)), (proj2 (Fprintf_sent _ _)).
    unfold http.WriteHeader. rewrite Hfresh.
    split; [reflexivity|]. split; [now apply (Hvalid code msg)|now split].
  - exists http.StatusInternalServerError.
    rewrite (proj1 (Fprintf_sent _ _)), (proj2 (Fprintf_sent _ _)).
    unfold http.WriteHeader. rewrite Hfresh. now repeat split.
Qed.

(** X18. When reading the body fails, [apiHandler] writes the error and
    goes on: the handler still runs, on the bytes that were read, and what
    it yields is written after the error.  The status is 200 whatever the
    handler returns, since the error was written first. *)
Theorem apiHandler_read_fault
    (Handle : list byte -> gmap string string -> app.reply Rsp)
    (w : http.ResponseWriter) (r : http.Request) (err : error) :
  http.wroteHeader w = None ->
  http.fault (http.body r) = Some err ->
    http.wroteHeader (apiHandler Handle w r) = Some (http.StatusOK, http.header w) /\
    http.written (apiHandler Handle w r)
    = (http.written w +:+ fmt_Sprintf (app.jsonError (app.PlainError err)))
      +:+ fmt_Sprintf
            match Handle (http.data (http.body r)) (app.routeParams w) with
            | app.Failure e => app.jsonError e
            | app.Reply rsp =>
                match json_Marshal rsp with
                | Err e => app.jsonError (app.PlainError e)
                | Ok jsonRsp => string_of_list_byte jsonRsp
                end
            end.
Proof.
  intros Hfresh Hfault. unfold app.apiHandler, ioutil_ReadAll.
  rewrite Hfault.
  assert (app.routeParams
            (Fprintf w (app.jsonError (app.PlainError err)))
          = app.routeParams w) as ->.
  { unfold app.routeParams, muxie_GetParams, app.Fprintf, http.Write,
      http.WriteHeader. now rewrite Hfresh. }
  destruct (Handle _ _) as [rsp|[code msg|e]].
  - destruct (json_Marshal rsp); unfold app.Fprintf, http.Write, http.WriteHeader;
      cbn; rewrite Hfresh; now split.
  - unfold app.Fprintf, http.Write, http.WriteHeader; cbn; rewrite Hfresh.
    now split.
  - unfold app.Fprintf, http.Write, http.WriteHeader; cbn; rewrite Hfresh.
    now split.
Qed.

(** X19. Every response of an [apiHandler] behind [apiMiddleware] is
    sent, and sent as JSON: on a writer that has sent nothing, whatever
    the request, and whatever the handler as long as the codes of its
    [HttpError]s are codes [WriteHeader] takes, a status that
    [WriteHeader] takes is sent and the header sent with it has the
    Content-Type [application/json;charset=utf8]. *)
Theorem api_responses_are_JSON
    (Handle : list byte -> gmap string string -> app.reply Rsp)
    (w : http.ResponseWriter) (r : http.Request) :
  http.wroteHeader w = None ->
  (forall b ps code msg,
     Handle b ps = app.Failure (app.HttpError code msg) ->
     http.validCode code = true) ->
  exists code sent,
    http.wroteHeader (apiMiddleware (apiHandler Handle) w r) = Some (code, sent) /\
    http.validCode code = true /\
    sent !! "Content-Type" = Some "application/json;charset=utf8".
Proof.
  intros Hfresh Hvalid.
  set (w' := http.Header_Set w "Content-Type" "application/json;charset=utf8").
  assert (Hw' : http.wroteHeader w' = None) by exact Hfresh.
  assert (Hct : http.header w' !! "Content-Type"
                = Some "application/json;charset=utf8")
    by apply lookup_insert_eq.
  assert (Hreject : forall msg,
    http.wroteHeader
      (http.Write (http.WriteHeader w' http.StatusUnsupportedMediaType) msg)
    = Some (http.StatusUnsupportedMediaType, http.header w')).
  { intros msg. unfold http.Write, http.WriteHeader. now rewrite Hw'. }
  destruct (apiMiddleware_cases (apiHandler Handle) w r)
    as [(_ & _ & _ & _ & _ & _ & ->)
       |[(_ & v & _ & _ & _ & _ & ->)|[_ ->]]]; fold w'.
  - destruct (apiHandler_sends Handle w' r Hw' Hvalid) as (code & -> & Hcode).
    eauto.
  - rewrite Hreject. eauto.
  - rewrite Hreject. eauto.
Qed.

End BoundaryProperties.

(** ** The further properties on the reference instances *)

Lemma default_IDs_NoDup : NoDup (ID <$> defaultFeedsList).
Proof.
  cbn.
  repeat (apply NoDup_cons_2;
          [rewrite ?elem_of_cons, elem_of_nil; intuition discriminate|]).
  apply NoDup_nil_2.
Qed.

Lemma example_ID_unused : "id-1" ∉ (ID <$> defaultFeedsList).
Proof. cbn. rewrite ?elem_of_cons, elem_of_nil. intuition discriminate. Qed.

(** X2, witness: a database file that has just been created. *)
Lemma new_store_lists_defaults_witness :
  bolt.Tx_Bucket newDB feedListBucket = None /\
  snd (NewFeedListStore None newDB) = None /\
  listStored (J := canonicalJSON) (fst (NewFeedListStore None newDB)) = Ok [] /\
  ListAll (J := canonicalJSON) (fst (NewFeedListStore None newDB))
  = Ok defaultFeedsList /\
  forall id,
    (forall feed, feed ∈ defaultFeedsList -> ID feed <> id) ->
    GetByID (J := canonicalJSON) (fst (NewFeedListStore None newDB)) id
    = Err ErrorFeedNotFound.
Proof.
  split; [reflexivity|].
  apply (@new_store_lists_defaults canonicalJSON newDB). reflexivity.
Defined.

(** X3, witness: a database file that has just been created. *)
Lemma uninitialized_store_fails_witness :
  bolt.Tx_Bucket newDB feedListBucket = None /\
  ListAll (J := canonicalJSON) newDB = Err ErrorUnconfiguredBucket /\
  (forall id, GetByID (J := canonicalJSON) newDB id = Err ErrorUnconfiguredBucket) /\
  (forall newID commit feed,
     Add (J := canonicalJSON) newID commit newDB feed
     = (newDB, Err ErrorUnconfiguredBucket)).
Proof.
  split; [reflexivity|].
  apply (@uninitialized_store_fails canonicalJSON newDB). reflexivity.
Defined.

(** X4, witness: the five example calls on a new store. *)
Lemma AddEach_keeps_bucket_witness :
  is_Some (bolt.Tx_Bucket readyDB feedListBucket) /\
  is_Some (bolt.Tx_Bucket (AddEach (J := canonicalJSON) exampleCalls readyDB)
             feedListBucket) /\
  listStored (J := canonicalJSON) (AddEach (J := canonicalJSON) exampleCalls readyDB)
  <> Err ErrorUnconfiguredBucket /\
  ListAll (J := canonicalJSON) (AddEach (J := canonicalJSON) exampleCalls readyDB)
  <> Err ErrorUnconfiguredBucket.
Proof.
  assert (is_Some (bolt.Tx_Bucket readyDB feedListBucket)) as H
    by (eexists; vm_compute; reflexivity).
  split; [exact H|].
  exact (@AddEach_keeps_bucket canonicalJSON exampleCalls readyDB H).
Defined.

(** X5, witness: the example feed registered in a new store. *)
Lemma Add_frame_witness :
  Add (J := canonicalJSON) "id-1" None readyDB exampleFeed
  = (exampleDB, Ok "id-1") /\
  (forall name, name <> feedListBucket -> exampleDB !! name = readyDB !! name) /\
  (bolt.Tx_Bucket readyDB feedListBucket = None ->
   bolt.Tx_Bucket exampleDB feedListBucket = None) /\
  (forall bucket,
     bolt.Tx_Bucket readyDB feedListBucket = Some bucket ->
     exists bucket',
       bolt.Tx_Bucket exampleDB feedListBucket = Some bucket' /\
       forall key, key <> allFeedsBucketKey -> bucket' !! key = bucket !! key).
Proof.
  split; [vm_compute; reflexivity|].
  apply (@Add_frame canonicalJSON "id-1" None readyDB exampleDB exampleFeed
           (Ok "id-1")).
  vm_compute; reflexivity.
Defined.

(** X6, witness: the first default feed, in a store with one feed. *)
Lemma GetByID_default_witness :
  listStored (J := canonicalJSON) exampleDB = Ok [set_ID exampleFeed "id-1"] /\
  nth 0 defaultFeedsList exampleFeed ∈ defaultFeedsList /\
  GetByID (J := canonicalJSON) exampleDB (ID (nth 0 defaultFeedsList exampleFeed))
  = Ok (nth 0 defaultFeedsList exampleFeed).
Proof.
  split; [vm_compute; reflexivity|]. split; [apply list_elem_of_here|].
  apply (@GetByID_default canonicalJSON exampleDB [set_ID exampleFeed "id-1"]
           (nth 0 defaultFeedsList exampleFeed));
    [vm_compute; reflexivity|apply list_elem_of_here].
Defined.

(** X8, witness: the example feed is found before and after another
    feed is registered. *)
Lemma GetByID_stable_witness :
  GetByID (J := replacingJSON) exampleDB "id-1" = Ok (set_ID exampleFeed "id-1") /\
  Add (J := replacingJSON) "id-5" None exampleDB otherFeed
  = (exampleDB2, Ok "id-5") /\
  GetByID (J := replacingJSON) exampleDB2 "id-1" = Ok (set_ID exampleFeed "id-1").
Proof.
  split; [vm_compute; reflexivity|]. split; [vm_compute; reflexivity|].
  apply (@GetByID_stable replacingJSON replacing.replaceInvalid
           replacing_unmarshal_marshal replacing_unmarshal_coerced
           replacing_marshal_nonempty
           "id-5" None exampleDB exampleDB2 otherFeed (Ok "id-5")).
  - vm_compute; reflexivity.
  - vm_compute; reflexivity.
Defined.

(** X9, witness: a candidate whose URL is not valid UTF-8, registered in
    a new store. *)
Lemma ListAll_grows_witness :
  ListAll (J := replacingJSON) readyDB = Ok defaultFeedsList /\
  Add (J := replacingJSON) "uuid-1" None readyDB invalidURLFeed
  = (invalidDB1, Ok "uuid-1") /\
  (ListAll (J := replacingJSON) invalidDB1 = Ok defaultFeedsList \/
   (ListAll (J := replacingJSON) invalidDB1
    = Ok (defaultFeedsList
          ++ [coerceFeed replacing.replaceInvalid (set_ID invalidURLFeed "uuid-1")]) /\
    Ok "uuid-1" = Ok "uuid-1" /\
    forall existingFeed,
      existingFeed ∈ defaultFeedsList -> URL existingFeed <> URL invalidURLFeed)).
Proof.
  split; [vm_compute; reflexivity|]. split; [vm_compute; reflexivity|].
  apply (@ListAll_grows replacingJSON replacing.replaceInvalid
           replacing_unmarshal_marshal replacing_unmarshal_coerced
           replacing_marshal_nonempty
           "uuid-1" None readyDB invalidDB1 invalidURLFeed (Ok "uuid-1")
           defaultFeedsList).
  - vm_compute; reflexivity.
  - vm_compute; reflexivity.
Defined.

(** X10, witness: a candidate with the URL of a default feed. *)
Lemma Add_returns_listed_witness :
  replacing.replaceInvalid "id-1" = "id-1" /\
  replacing.replaceInvalid (URL defaultURLFeed) = URL defaultURLFeed /\
  Add (J := replacingJSON) "id-1" None readyDB defaultURLFeed
  = (readyDB, Ok "b1031651-411c-40bb-b269-d247794dfd59") /\
  exists feeds listed,
    ListAll (J := replacingJSON) readyDB = Ok feeds /\
    listed ∈ feeds /\
    ID listed = "b1031651-411c-40bb-b269-d247794dfd59" /\
    URL listed = URL defaultURLFeed.
Proof.
  split; [reflexivity|]. split; [reflexivity|].
  split; [vm_compute; reflexivity|].
  apply (@Add_returns_listed replacingJSON replacing.replaceInvalid
           replacing_unmarshal_marshal replacing_unmarshal_coerced
           replacing_marshal_nonempty
           "id-1" None readyDB readyDB defaultURLFeed).
  - reflexivity.
  - reflexivity.
  - vm_compute; reflexivity.
Defined.

(** X11, witness: the example feed registered in a new store. *)
Lemma Add_keeps_IDs_unique_witness :
  ListAll (J := replacingJSON) readyDB = Ok defaultFeedsList /\
  NoDup (ID <$> defaultFeedsList) /\
  ("id-1" ∉ (ID <$> defaultFeedsList)) /\
  replacing.replaceInvalid "id-1" = "id-1" /\
  Add (J := replacingJSON) "id-1" None readyDB exampleFeed
  = (exampleDB, Ok "id-1") /\
  exists feeds',
    ListAll (J := replacingJSON) exampleDB = Ok feeds' /\ NoDup (ID <$> feeds').
Proof.
  split; [vm_compute; reflexivity|]. split; [exact default_IDs_NoDup|].
  split; [exact example_ID_unused|]. split; [reflexivity|].
  split; [vm_compute; reflexivity|].
  apply (@Add_keeps_IDs_unique replacingJSON replacing.replaceInvalid
           replacing_unmarshal_marshal replacing_unmarshal_coerced
           replacing_marshal_nonempty
           "id-1" None readyDB exampleDB exampleFeed (Ok "id-1") defaultFeedsList).
  - vm_compute; reflexivity.
  - exact default_IDs_NoDup.
  - exact example_ID_unused.
  - reflexivity.
  - vm_compute; reflexivity.
Defined.

(** X12, witness: a candidate with the URL of a default feed. *)
Lemma Add_GetByID_URL_witness :
  ListAll (J := replacingJSON) readyDB = Ok defaultFeedsList /\
  NoDup (ID <$> defaultFeedsList) /\
  ("id-1" ∉ (ID <$> defaultFeedsList)) /\
  replacing.replaceInvalid "id-1" = "id-1" /\
  replacing.replaceInvalid (URL defaultURLFeed) = URL defaultURLFeed /\
  Add (J := replacingJSON) "id-1" None readyDB defaultURLFeed
  = (readyDB, Ok "b1031651-411c-40bb-b269-d247794dfd59") /\
  exists found,
    GetByID (J := replacingJSON) readyDB "b1031651-411c-40bb-b269-d247794dfd59"
    = Ok found /\
    ID found = "b1031651-411c-40bb-b269-d247794dfd59" /\
    URL found = URL defaultURLFeed.
Proof.
  split; [vm_compute; reflexivity|]. split; [exact default_IDs_NoDup|].
  split; [exact example_ID_unused|]. split; [reflexivity|].
  split; [reflexivity|]. split; [vm_compute; reflexivity|].
  apply (@Add_GetByID_URL replacingJSON replacing.replaceInvalid
           replacing_unmarshal_marshal replacing_unmarshal_coerced
           replacing_marshal_nonempty
           "id-1" None readyDB readyDB defaultURLFeed
           "b1031651-411c-40bb-b269-d247794dfd59" defaultFeedsList).
  - vm_compute; reflexivity.
  - exact default_IDs_NoDup.
  - exact example_ID_unused.
  - reflexivity.
  - reflexivity.
  - vm_compute; reflexivity.
Defined.

(** X13, witness: the five example calls on a new store. *)
Lemma AddEach_insertion_order_witness :
  ListAll (J := replacingJSON) readyDB = Ok defaultFeedsList /\
  exists added,
    ListAll (J := replacingJSON) (AddEach (J := replacingJSON) exampleCalls readyDB)
    = Ok (defaultFeedsList ++ added) /\
    added `sublist_of`
      (coerceFeed replacing.replaceInvalid <$> (stamped <$> exampleCalls)).
Proof.
  split; [vm_compute; reflexivity|].
  apply (@AddEach_insertion_order replacingJSON replacing.replaceInvalid
           replacing_unmarshal_marshal replacing_unmarshal_coerced
           replacing_marshal_nonempty
           exampleCalls readyDB defaultFeedsList).
  vm_compute; reflexivity.
Defined.

(** X15, witness: a request that declares HTML and something that
    does not parse. *)
Lemma apiMiddleware_rejects_witness :
  (forall v,
     v ∈ strings_Split
           (http.Header_Get
              (http.Header (requestOf ["text/html,image"] emptyBody))
              "Content-Type") "," ->
     exampleParseMediaType v <> Some "application/json") /\
  http.wroteHeader newWriter = None /\
  http.wroteHeader
    (app.apiMiddleware exampleParseMediaType
       (app.apiHandler exampleSprintf (list Feed) canonical.Marshal
          (exampleListHandler readyDB))
       newWriter (requestOf ["text/html,image"] emptyBody))
  = Some (http.StatusUnsupportedMediaType,
          <["Content-Type" := "application/json;charset=utf8"]>
            (http.header newWriter)) /\
  forall next',
    app.apiMiddleware exampleParseMediaType next' newWriter
      (requestOf ["text/html,image"] emptyBody)
    = app.apiMiddleware exampleParseMediaType
        (app.apiHandler exampleSprintf (list Feed) canonical.Marshal
           (exampleListHandler readyDB))
        newWriter (requestOf ["text/html,image"] emptyBody).
Proof.
  assert (forall v,
    v ∈ strings_Split
          (http.Header_Get
             (http.Header (requestOf ["text/html,image"] emptyBody))
             "Content-Type") "," ->
    exampleParseMediaType v <> Some "application/json") as Hparts.
  { intros v Hin. vm_compute in Hin.
    repeat (apply elem_of_cons in Hin as [->|Hin]; [discriminate|]).
    now apply elem_of_nil in Hin. }
  split; [exact Hparts|]. split; [reflexivity|].
  apply (@apiMiddleware_rejects exampleParseMediaType); [exact Hparts|reflexivity].
Defined.

(** X16, witness: a request without headers. *)
Lemma apiMiddleware_no_content_type_witness :
  exampleParseMediaType "" = None /\
  http.Header (http.mkRequest ∅ emptyBody) !! "Content-Type" = None /\
  app.apiMiddleware exampleParseMediaType
    (app.apiHandler exampleSprintf (list Feed) canonical.Marshal
       (exampleListHandler readyDB))
    newWriter (http.mkRequest ∅ emptyBody)
  = http.Write
      (http.WriteHeader
         (http.Header_Set newWriter "Content-Type" "application/json;charset=utf8")
         http.StatusUnsupportedMediaType)
      (app.notParseable "").
Proof.
  split; [reflexivity|]. split; [reflexivity|].
  apply (@apiMiddleware_no_content_type exampleParseMediaType); reflexivity.
Defined.

(** X17, witness: a handler that fails with an [HttpError] of code 404. *)
Lemma apiHandler_status_witness :
  http.wroteHeader newWriter = None /\
  http.fault (http.body (requestOf ["application/json"] emptyBody)) = None /\
  (forall code msg,
     exampleNotFoundHandler
       (http.data (http.body (requestOf ["application/json"] emptyBody)))
       (app.routeParams newWriter)
     = app.Failure (app.HttpError code msg) ->
     http.validCode code = true) /\
  exists code,
    http.wroteHeader
      (app.apiHandler exampleSprintf (list Feed) canonical.Marshal
         exampleNotFoundHandler newWriter (requestOf ["application/json"] emptyBody))
    = Some (code, http.header newWriter) /\
    http.validCode code = true /\
    code = 404 /\
    http.header
      (app.apiHandler exampleSprintf (list Feed) canonical.Marshal
         exampleNotFoundHandler newWriter (requestOf ["application/json"] emptyBody))
    = http.header newWriter.
Proof.
  assert (forall code msg,
     exampleNotFoundHandler
       (http.data (http.body (requestOf ["application/json"] emptyBody)))
       (app.routeParams newWriter)
     = app.Failure (app.HttpError code msg) ->
     http.validCode code = true) as Hvalid
    by (intros code msg [= <- _]; reflexivity).
  split; [reflexivity|]. split; [reflexivity|]. split; [exact Hvalid|].
  apply (@apiHandler_status exampleSprintf (list Feed) canonical.Marshal
           exampleNotFoundHandler newWriter
           (requestOf ["application/json"] emptyBody));
    [reflexivity|reflexivity|exact Hvalid].
Defined.

(** X18, witness: the body cannot be read and the handler fails with an
    [HttpError] of code 404; the status sent is 200. *)
Lemma apiHandler_read_fault_witness :
  http.wroteHeader newWriter = None /\
  http.fault (http.body (requestOf ["application/json"] brokenBody))
  = Some (LibraryError "unexpected EOF") /\
  http.wroteHeader
    (app.apiHandler exampleSprintf (list Feed) canonical.Marshal
       exampleNotFoundHandler newWriter (requestOf ["application/json"] brokenBody))
  = Some (http.StatusOK, http.header newWriter) /\
  http.written
    (app.apiHandler exampleSprintf (list Feed) canonical.Marshal
       exampleNotFoundHandler newWriter (requestOf ["application/json"] brokenBody))
  = (http.written newWriter
     +:+ exampleSprintf
           (app.jsonError (app.PlainError (LibraryError "unexpected EOF"))))
    +:+ exampleSprintf
          (app.jsonError (app.HttpError 404 "Endpoint not found")).
Proof.
  split; [reflexivity|]. split; [reflexivity|].
  apply (@apiHandler_read_fault exampleSprintf (list Feed) canonical.Marshal
           exampleNotFoundHandler newWriter
           (requestOf ["application/json"] brokenBody)
           (LibraryError "unexpected EOF")); reflexivity.
Defined.

(** X19, witness: a handler that fails with an [HttpError] of code 404,
    asked as JSON. *)
Lemma api_responses_are_JSON_witness :
  http.wroteHeader newWriter = None /\
  (forall b ps code msg,
     exampleNotFoundHandler b ps = app.Failure (app.HttpError code msg) ->
     http.validCode code = true) /\
  exists code sent,
    http.wroteHeader
      (app.apiMiddleware exampleParseMediaType
         (app.apiHandler exampleSprintf (list Feed) canonical.Marshal
            exampleNotFoundHandler)
         newWriter (requestOf ["application/json"] emptyBody))
    = Some (code, sent) /\
    http.validCode code = true /\
    sent !! "Content-Type" = Some "application/json;charset=utf8".
Proof.
  assert (forall b ps code msg,
     exampleNotFoundHandler b ps = app.Failure (app.HttpError code msg) ->
     http.validCode code = true) as Hvalid
    by (intros b ps code msg [= <- _]; reflexivity).
  split; [reflexivity|]. split; [exact Hvalid|].
  apply (@api_responses_are_JSON exampleParseMediaType exampleSprintf
           (list Feed) canonical.Marshal exampleNotFoundHandler
           newWriter (requestOf ["application/json"] emptyBody));
    [reflexivity|exact Hvalid].
Defined.
